(** * spurt.utils.merge: utilities for merging point clouds

    A shallow embedding of [src/spurt/utils/merge.py] and the properties of
    its three functions:

    - [find_common_points]      (lines 11-34)
    - [pairwise_unwrapped_diff] (lines 37-84)
    - [l2_min]                  (lines 87-121)

    Python exceptions are values of [exn]; a call either returns ([Ok]) or
    raises ([Raise]).  NumPy integers of a fixed width are integers of [Z]
    with the wrap-around written out; NumPy floats are IEEE-754 values of
    the Standard Library's [spec_float]. *)

From Stdlib Require Import String ZArith List Lia Bool Sorted.
From Stdlib Require Import Floats.SpecFloat.
Import ListNotations.
Open Scope string_scope.
Open Scope Z_scope.

(** ** Python results *)

Inductive exn : Type :=
| ValueError (msg : string)     (* raise ValueError(msg), or NumPy's own *)
| AssertionError (msg : string) (* a failed [assert] *)
| IndexError                    (* index out of bounds *)
| AttributeError                (* missing module attribute *)
| NotImplementedError           (* an operation SciPy refuses *)
| LinAlgError.                  (* a solver that gives up *)

Inductive result (A : Type) : Type :=
| Ok (a : A)
| Raise (e : exn).
Arguments Ok {A} a.
Arguments Raise {A} e.

Definition bind {A B : Type} (r : result A) (k : A -> result B) : result B :=
  match r with
  | Ok a => k a
  | Raise e => Raise e
  end.

Notation "x <- e ;; k" := (bind e (fun x => k))
  (at level 61, e at next level, right associativity).
Notation "'assert!' c 'else' msg ;; k" :=
  (if c then k else Raise (AssertionError msg))
  (at level 61, c at next level, msg at next level, right associativity).

(** ** Fixed-width integers *)

(** The value a [w]-bit two's-complement integer holds after an operation
    whose exact result is [z]. *)
Definition wrap (w z : Z) : Z :=
  (z + 2 ^ (w - 1)) mod 2 ^ w - 2 ^ (w - 1).

(** ** NumPy reductions and set routines used by the module *)

Module NumPy.

(** [np.min] / [np.amax] over all elements: a zero-size array has no
    identity for the reduction and NumPy raises [ValueError]. *)
Definition zero_size : string :=
  "zero-size array to reduction operation which has no identity".

Definition amin (l : list Z) : result Z :=
  match l with
  | [] => Raise (ValueError zero_size)
  | x :: t => Ok (fold_left Z.min t x)
  end.

Definition amax (l : list Z) : result Z :=
  match l with
  | [] => Raise (ValueError zero_size)
  | x :: t => Ok (fold_left Z.max t x)
  end.

(** Position of the first occurrence of [v] ([length l] when absent). *)
Fixpoint index_of (v : Z) (l : list Z) : nat :=
  match l with
  | [] => O
  | x :: t => if x =? v then O else S (index_of v t)
  end.

(** Insertion into a strictly increasing list. *)
Fixpoint insert_uniq (v : Z) (l : list Z) : list Z :=
  match l with
  | [] => [v]
  | x :: t =>
      if v <? x then v :: l
      else if v =? x then l
      else x :: insert_uniq v t
  end.

(** [np.unique]: the sorted distinct values. *)
Definition unique (l : list Z) : list Z := fold_right insert_uniq [] l.

Definition mem (v : Z) (l : list Z) : bool := existsb (Z.eqb v) l.

(** [np.intersect1d(ar1, ar2, return_indices=True)], by its documented
    contract: the sorted, unique values that are in both arrays, with the
    indices of the first occurrences of these values in [ar1] and in
    [ar2]. *)
Definition intersect1d (ar1 ar2 : list Z) : list Z * (list nat * list nat) :=
  let common := filter (fun v => mem v ar2) (unique ar1) in
  (common, (map (fun v => index_of v ar1) common,
            map (fun v => index_of v ar2) common)).

End NumPy.

(** ** find_common_points *)

(** A point cloud [array[n, 2]]: one pair per row. *)
Definition point : Type := Z * Z.
Definition cloud : Type := list point.

(** All elements of the array, row by row. *)
Definition elements (c : cloud) : list Z :=
  flat_map (fun p => [fst p; snd p]) c.

(** [c[:, 0] * m + c[:, 1]] in [w]-bit arithmetic. *)
Definition encode (w m : Z) (p : point) : Z :=
  wrap w (wrap w (fst p * m) + snd p).

(** Lines 29-34.  [w] is the width of the integer type of the arrays (64 for
    NumPy's default integer). *)
Definition find_common_points (w : Z) (c1 c2 : cloud)
  : result (list nat * list nat) :=
  lo1 <- NumPy.amin (elements c1) ;;
  lo2 <- NumPy.amin (elements c2) ;;
  assert! (Z.min lo1 lo2 >=? 0) else EmptyString ;;
  hi1 <- NumPy.amax (map snd c1) ;;
  hi2 <- NumPy.amax (map snd c2) ;;
  let m := wrap w (1 + Z.max hi1 hi2) in
  let fc1 := map (encode w m) c1 in
  let fc2 := map (encode w m) c2 in
  Ok (snd (NumPy.intersect1d fc1 fc2)).

(** The exact (unbounded) stride [1 + max y] and the condition that no
    intermediate value of the encoding leaves the [w]-bit range. *)
Definition max_snd (c : cloud) : Z := fold_left Z.max (map snd c) 0.

Definition stride (c1 c2 : cloud) : Z := 1 + Z.max (max_snd c1) (max_snd c2).

(** The injective encoding the source aims at. *)
Definition key (c1 c2 : cloud) (p : point) : Z := fst p * stride c1 c2 + snd p.

Definition fits (w : Z) (c1 c2 : cloud) : Prop :=
  stride c1 c2 < 2 ^ (w - 1) /\
  Forall (fun p => fst p * stride c1 c2 + snd p < 2 ^ (w - 1)) (c1 ++ c2).

Definition nonneg (c : cloud) : Prop :=
  Forall (fun p => 0 <= fst p /\ 0 <= snd p) c.

(** Position [k] of the returned index sequences [ii], [jj] stands for the
    point [p]: [c1[ii[k]]] and [c2[jj[k]]] both are [p]. *)
Definition represents (c1 c2 : cloud) (ii jj : list nat) (k : nat) (p : point)
  : Prop :=
  exists i j,
    nth_error ii k = Some i /\ nth_error jj k = Some j /\
    nth_error c1 i = Some p /\ nth_error c2 j = Some p.

(** What the function is meant to return: index sequences of equal length
    whose every position stands for some point. *)
Definition index_pairs_agree (c1 c2 : cloud) (ii jj : list nat) : Prop :=
  length ii = length jj /\
  forall k, (k < length ii)%nat -> exists p, represents c1 c2 ii jj k p.

(** ** IEEE-754 arithmetic *)

Module IEEE.

Definition float : Type := spec_float.

(** binary64 ([np.float64], Python [float]) *)
Definition add64 : float -> float -> float := SFadd 53 1024.
Definition sub64 : float -> float -> float := SFsub 53 1024.
Definition mul64 : float -> float -> float := SFmul 53 1024.
Definition div64 : float -> float -> float := SFdiv 53 1024.
Definition leb (x y : float) : bool := SFleb x y.
Definition eqb (x y : float) : bool := SFeqb x y.

(** An integer as a binary64 value (round to nearest even). *)
Definition of_Z64 (z : Z) : float := binary_normalize 53 1024 z 0 false.

Definition zero : float := S754_zero false.

(** Conversion to binary32 (storing into a [float32] array) and the exact
    conversion of a binary32 value to binary64. *)
Definition to32 (x : float) : float :=
  match x with
  | S754_finite s m e => binary_round 24 128 s m e
  | _ => x
  end.

Definition to64 (x : float) : float :=
  match x with
  | S754_finite s m e => binary_round 53 1024 s m e
  | _ => x
  end.

(** [np.pi]: the binary64 value 0x400921FB54442D18. *)
Definition pi : float := S754_finite false 7074237752028440 (-51).

(** The integer nearest to [m / 2^k], ties to even. *)
Definition round_half_even (m k : Z) : Z :=
  let q := m / 2 ^ k in
  match (2 * (m mod 2 ^ k) ?= 2 ^ k) with
  | Lt => q
  | Gt => q + 1
  | Eq => if Z.even q then q else q + 1
  end.

(** The absolute value of the integer nearest to [m * 2^e]. *)
Definition rint_abs (m : positive) (e : Z) : Z :=
  if 0 <=? e then Zpos m * 2 ^ e else round_half_even (Zpos m) (- e).

(** The integer a finite value rounds to under [np.rint]; [None] for an
    infinity or a NaN. *)
Definition rint_Z (x : float) : option Z :=
  match x with
  | S754_zero _ => Some 0
  | S754_finite s m e => Some (cond_Zopp s (rint_abs m e))
  | _ => None
  end.

(** A finite [float32] has at most 24 digits and an exponent between -149
    and 104. *)
Definition is_float32 (x : float) : Prop :=
  match x with
  | S754_finite _ m e => Zpos (digits2_pos m) <= 24 /\ -149 <= e <= 104
  | _ => True
  end.

(** A sufficient test for a [float64] of at least 1/2: [+inf], or positive
    with an exponent of at least -53. *)
Definition at_least_half (x : float) : Prop :=
  match x with
  | S754_infinity false => True
  | S754_finite false _ e => -53 <= e
  | _ => False
  end.

(** [np.rint] on a [float32] array element. *)
Definition rint32 (x : float) : float :=
  match x with
  | S754_finite s _ _ =>
      match rint_Z x with
      | Some n => binary_normalize 24 128 n 0 s
      | None => x
      end
  | _ => x
  end.

(** The integer part of a finite value (C conversion to an integer type
    truncates toward zero). *)
Definition trunc_Z (x : float) : option Z :=
  match x with
  | S754_zero _ => Some 0
  | S754_finite s m e =>
      Some (cond_Zopp s (if 0 <=? e then Zpos m * 2 ^ e
                         else Zpos m / 2 ^ (- e)))
  | _ => None
  end.

End IEEE.

Import IEEE.

(** ** N-dimensional arrays *)

(** An array is its shape and its elements in row-major order. *)
Record ndarray (A : Type) : Type := mk_ndarray {
  shape : list nat;
  data : list A
}.
Arguments mk_ndarray {A} shape data.
Arguments shape {A} _.
Arguments data {A} _.

Definition ndim {A : Type} (a : ndarray A) : nat := length (shape a).

Definition shape_eqb (s1 s2 : list nat) : bool :=
  if list_eq_dec Nat.eq_dec s1 s2 then true else false.

(** [n] consecutive rows of width [w]. *)
Fixpoint rows_of {A : Type} (n w : nat) (l : list A) : list (list A) :=
  match n with
  | O => []
  | S n' => firstn w l :: rows_of n' w (skipn w l)
  end.

Fixpoint insert_sorted (v : Z) (l : list Z) : list Z :=
  match l with
  | [] => [v]
  | x :: t => if v <=? x then v :: l else x :: insert_sorted v t
  end.

(** [np.sort] of one row of integers. *)
Definition sort_row (l : list Z) : list Z := fold_right insert_sorted [] l.

(** One index of a fancy index on an axis of length [n]: NumPy accepts
    [-n <= i < n] and counts negative indices from the end. *)
Definition normalize_index (n : nat) (i : Z) : result nat :=
  if (0 <=? i) && (i <? Z.of_nat n) then Ok (Z.to_nat i)
  else if (- Z.of_nat n <=? i) && (i <? 0) then Ok (Z.to_nat (i + Z.of_nat n))
  else Raise IndexError.

Fixpoint normalize_indices (n : nat) (inds : list Z) : result (list nat) :=
  match inds with
  | [] => Ok []
  | i :: t =>
      j <- normalize_index n i ;;
      js <- normalize_indices n t ;;
      Ok (j :: js)
  end.

(** [a[:, inds]] on a 2-D array of shape [(bands, w)].  NumPy checks the
    index array against the axis length.  When the result has no elements,
    releases up to 1.19 skip the check and later ones only warn that it
    "will be raised in the future"; [strict] tells whether the installed
    NumPy raises in that case too. *)
Definition take_columns (strict : bool) (bands w : nat) (l : list Z)
           (inds : list Z) : result (ndarray Z) :=
  match normalize_indices w inds with
  | Ok js =>
      Ok (mk_ndarray [bands; length js]
            (flat_map (fun row => map (fun j => nth j row 0) js)
                      (rows_of bands w l)))
  | Raise e =>
      if negb strict && Nat.eqb (bands * length inds) 0
      then Ok (mk_ndarray [bands; length inds] [])
      else Raise e
  end.

(** ** pairwise_unwrapped_diff *)

(** What the source leaves to the installed NumPy and to the machine:
    - [np_has_int]: whether the alias [np.int] of the builtin [int] exists
      (it was removed in NumPy 1.24; line 78 reads it);
    - [strict_empty_index]: whether an out-of-bounds index is an error
      even when the indexing result has no elements;
    - [cast_out_of_range]: the [int16] a float-to-[int16] conversion stores
      when the float is a NaN, an infinity or outside the [int16] range,
      which C leaves undefined. *)
Record platform : Type := mk_platform {
  np_has_int : bool;
  strict_empty_index : bool;
  cast_out_of_range : float -> Z
}.

Definition int16_min : Z := -32768.
Definition int16_max : Z := 32767.
Definition in_int16 (z : Z) : bool := (int16_min <=? z) && (z <=? int16_max).

(** [x.astype(np.int16)] of one [float32] element. *)
Definition astype_int16 (pf : platform) (x : float) : Z :=
  match trunc_Z x with
  | Some z => if in_int16 z then z else cast_out_of_range pf x
  | None => cast_out_of_range pf x
  end.

(** The usual machine behaviour: convert to 32 bits (an out-of-range
    conversion gives the "integer indefinite" value [-2^31]) and keep the
    low 16 bits. *)
Definition cast_wrapping (x : float) : Z :=
  match trunc_Z x with
  | Some z => if (- 2 ^ 31 <=? z) && (z <? 2 ^ 31) then wrap 16 z else 0
  | None => 0
  end.

(** [x.astype(np.int)] of one [float64] element, for the values line 78
    converts (all in range). *)
Definition astype_int (x : float) : Z :=
  match trunc_Z x with
  | Some z => wrap 64 z
  | None => - 2 ^ 63
  end.

(** [np.linspace(start, stop, num)] for [num > 1]: [i * step + start] with
    [step = (stop - start) / (num - 1)], the last sample set to [stop]. *)
Definition linspace (start stop : float) (num : nat) : list float :=
  let step := div64 (sub64 stop start) (of_Z64 (Z.of_nat (num - 1))) in
  map (fun i => add64 (mul64 (of_Z64 (Z.of_nat i)) step) start)
      (seq 0 (num - 1)) ++ [stop].

Definition atol : float := div64 (of_Z64 1) (of_Z64 100).       (* 0.01 *)
Definition rtol : float := div64 (of_Z64 1) (of_Z64 100000).    (* 1e-5 *)

(** One element of [np.isclose(diff, nint, atol=0.01)]: [diff] is
    [float32], [nint] is [int16] and is converted to [float64];
    [|x - y| <= atol + rtol * |y|] is evaluated in [float64] ([rtol] keeps
    its default).  A NaN or an infinity on the left compares false. *)
Definition tolerance (n : Z) : float :=
  add64 atol (mul64 rtol (SFabs (of_Z64 n))).

Definition isclose (x : float) (n : Z) : bool :=
  leb (SFabs (sub64 (to64 x) (of_Z64 n))) (tolerance n).

Definition allclose (xs : list float) (ns : list Z) : bool :=
  forallb (fun xn => isclose (fst xn) (snd xn)) (combine xs ns).

Definition two_pi : float := mul64 (of_Z64 2) pi.

(** Line 71: one element of [(b2 - b1) / (2 * np.pi)] stored as [float32]. *)
Definition cycle_diff (x1 x2 : float) : float :=
  to32 (div64 (sub64 x2 x1) two_pi).

(** Line 78 for [samples] columns. *)
Definition rank_indices (samples : nat) : list Z :=
  map (fun p => astype_int (mul64 p (of_Z64 (Z.of_nat samples))))
      (linspace (of_Z64 0) (of_Z64 100) 11).

Definition msg_shape : string := "Shape mismatch".
Definition msg_ndim : string := "Expecting 2D array as input".
Definition msg_samples : string := "Need atleast 11 elements per band".
Definition msg_cycles : string := "Arrays differ by non-integer cycles".

(** Lines 55-84.  The inputs are [float64] arrays. *)
Definition pairwise_unwrapped_diff (pf : platform) (b1 b2 : ndarray float)
  : result (ndarray Z) :=
  if negb (shape_eqb (shape b1) (shape b2)) then Raise (ValueError msg_shape)
  else if negb (Nat.eqb (ndim b1) 2) then Raise (ValueError msg_ndim)
  else
    let bands := nth 0 (shape b1) O in
    let samples := nth 1 (shape b1) O in
    if negb (Nat.eqb samples 11) then Raise (ValueError msg_samples)
    else
      let diff :=
        map (fun x => cycle_diff (fst x) (snd x)) (combine (data b1) (data b2)) in
      let nint := map (fun d => astype_int16 pf (rint32 d)) diff in
      assert! (allclose diff nint) else msg_cycles ;;
      if negb (np_has_int pf) then Raise AttributeError
      else
        let inds := rank_indices samples in
        let sorted := flat_map sort_row (rows_of bands samples nint) in
        take_columns (strict_empty_index pf) bands samples sorted inds.

(** What line 84 comes to with 11 samples per band, as proved below
    ([take_columns_rank_indices]). *)
Definition gather_outcome (pf : platform) (bands : nat) : result (ndarray Z) :=
  if negb (strict_empty_index pf) && Nat.eqb bands 0
  then Ok (mk_ndarray [0; 11]%nat [])
  else Raise IndexError.

(** The tolerance test of line 75 on one pair of input elements. *)
Definition cycle_ok (pf : platform) (x1 x2 : float) : bool :=
  let d := cycle_diff x1 x2 in
  isclose d (astype_int16 pf (rint32 d)).

(** The element's cycle difference rounds to an integer that [int16]
    cannot hold. *)
Definition beyond_int16 (x1 x2 : float) : Prop :=
  exists z, rint_Z (cycle_diff x1 x2) = Some z /\ in_int16 z = false.

(** All [int16] values, and a sufficient test for a positive [float64]
    below 1/2. *)
Fixpoint Z_range (start : Z) (len : nat) : list Z :=
  match len with
  | O => []
  | S k => start :: Z_range (start + 1) k
  end.

Definition int16_values : list Z := Z_range int16_min (Z.to_nat 65536).

Definition below_half (x : float) : bool :=
  match x with
  | S754_finite false _ e => e <=? -54
  | _ => false
  end.

(** The test as the specification words it, in exact arithmetic: the value
    differs from its nearest integer by more than 1/100 (an infinity or a
    NaN is near no integer). *)
Definition far_from_integer (x : float) : bool :=
  match x with
  | S754_zero _ => false
  | S754_finite _ m e =>
      if 0 <=? e then false
      else 2 ^ (- e) <?
           100 * Z.abs (Zpos m - round_half_even (Zpos m) (- e) * 2 ^ (- e))
  | _ => true
  end.

(** ** l2_min *)

(** A [scipy.sparse.csr_matrix]: its shape and the stored entries
    [(row, column, value)] (explicit zeros included). *)
Record csr_matrix : Type := mk_csr {
  csr_shape : nat * nat;
  csr_entries : list (nat * nat * float)
}.

(** The coefficient matrix: a 2-D [np.ndarray] of [float64] given by its
    shape and its rows, or a sparse matrix. *)
Inductive matrix : Type :=
| Dense (sh : nat * nat) (rows : list (list float))
| Sparse (a : csr_matrix).

Definition mat_shape (a : matrix) : nat * nat :=
  match a with
  | Dense sh _ => sh
  | Sparse s => csr_shape s
  end.

(** [np.size(amat)] returns [amat.size]: the number of elements of an
    [ndarray], and the number of stored values of a SciPy sparse matrix. *)
Definition np_size (a : matrix) : nat :=
  match a with
  | Dense sh _ => (fst sh * snd sh)%nat
  | Sparse s => length (csr_entries s)
  end.

Definition dense_ok (sh : nat * nat) (rows : list (list float)) : Prop :=
  length rows = fst sh /\ Forall (fun r => length r = snd sh) rows.

Definition csr_ok (s : csr_matrix) : Prop :=
  Forall (fun e => (fst (fst e) < fst (csr_shape s))%nat /\
                   (snd (fst e) < snd (csr_shape s))%nat) (csr_entries s).

Definition matrix_ok (a : matrix) : Prop :=
  match a with
  | Dense sh rows => dense_ok sh rows
  | Sparse s => csr_ok s
  end.

(** What [l2_min] returns as its second component: a [float64] vector, or
    an array of Python objects (here always sparse matrices). *)
Inductive pyarray : Type :=
| FloatArray (v : list float)
| ObjectArray (ms : list csr_matrix).

(** [np.zeros(n)] *)
Definition np_zeros (n : nat) : list float := repeat zero n.

Definition dot (u v : list float) : float :=
  fold_left add64 (map (fun p => mul64 (fst p) (snd p)) (combine u v)) zero.

(** [A @ x] for a dense [A]. *)
Definition matvec (rows : list (list float)) (x : list float) : list float :=
  map (fun r => dot r x) rows.

Definition vsub (u v : list float) : list float :=
  map (fun p => sub64 (fst p) (snd p)) (combine u v).

Definition csr_scale (s : csr_matrix) (c : float) : csr_matrix :=
  mk_csr (csr_shape s)
         (map (fun e => (fst e, mul64 (snd e) c)) (csr_entries s)).

Definition csr_neg (s : csr_matrix) : csr_matrix :=
  mk_csr (csr_shape s) (map (fun e => (fst e, SFopp (snd e))) (csr_entries s)).

(** [np.dot(amat, x)].  For an [ndarray] this is the matrix-vector product
    (the column count must be the length of [x]).  NumPy does not know
    SciPy's sparse matrices: it takes one as a 0-d array holding a Python
    object, and the product with a 0-d operand is [np.multiply], so the
    result is an object array whose [j]-th entry is the matrix scaled by
    [x[j]]. *)
Definition np_dot (a : matrix) (x : list float) : result pyarray :=
  match a with
  | Dense sh rows =>
      if Nat.eqb (snd sh) (length x) then Ok (FloatArray (matvec rows x))
      else Raise (ValueError "shapes not aligned")
  | Sparse s => Ok (ObjectArray (map (csr_scale s) x))
  end.

(** Broadcasting of two 1-D operands. *)
Definition broadcast {A B : Type} (u : list A) (v : list B)
  : result (list (A * B)) :=
  if Nat.eqb (length u) (length v) then Ok (combine u v)
  else match u, v with
       | [a], _ => Ok (map (fun b => (a, b)) v)
       | _, [b] => Ok (map (fun a => (a, b)) u)
       | _, _ => Raise (ValueError "operands could not be broadcast together")
       end.

(** [float - sparse matrix]: SciPy's [__rsub__] returns the negated matrix
    for a zero scalar and raises [NotImplementedError] for any other. *)
Definition scalar_sub_csr (c : float) (s : csr_matrix) : result csr_matrix :=
  if eqb c zero then Ok (csr_neg s) else Raise NotImplementedError.

Fixpoint sequence {A : Type} (l : list (result A)) : result (list A) :=
  match l with
  | [] => Ok []
  | r :: t => a <- r ;; rest <- sequence t ;; Ok (a :: rest)
  end.

(** [b - y] for a [float64] vector [b]. *)
Definition np_subtract (b : list float) (y : pyarray) : result pyarray :=
  match y with
  | FloatArray v =>
      ps <- broadcast b v ;;
      Ok (FloatArray (map (fun p => sub64 (fst p) (snd p)) ps))
  | ObjectArray ms =>
      ps <- broadcast b ms ;;
      rs <- sequence (map (fun p => scalar_sub_csr (fst p) (snd p)) ps) ;;
      Ok (ObjectArray rs)
  end.

(** What a call of [l2_min] does besides returning. *)
Inductive event : Type :=
| Warning (msg : string)   (* logger.warning(msg) *)
| SolveDense               (* numpy.linalg.lstsq *)
| SolveSparse.             (* scipy.sparse.linalg.lsqr *)

(** The optional [logger] argument; a logger object is truthy. *)
Inductive logger : Type := Logger.

Section Solver.

(** The two library solvers: each returns its solution vector or raises. *)
Variable lsq_dense : list (list float) -> list float -> result (list float).
Variable lsq_sparse : csr_matrix -> list float -> result (list float).

(** Lines 109-121: the events of the call, in order, and its outcome. *)
Definition l2_min (amat : matrix) (b : list float) (log : option logger)
  : list event * result (list float * pyarray) :=
  if Nat.eqb (np_size amat) 0 then
    (match log with
     | Some _ => [Warning "A is empty; returning all zeros"]
     | None => []
     end,
     Ok (np_zeros (snd (mat_shape amat)),
         FloatArray (np_zeros (fst (mat_shape amat)))))
  else if negb (Nat.eqb (fst (mat_shape amat)) (length b)) then
    ([], Raise (AssertionError ""))
  else
    let solve :=
      match amat with
      | Dense _ rows => (SolveDense, lsq_dense rows b)
      | Sparse s => (SolveSparse, lsq_sparse s b)
      end in
    ([fst solve],
     x <- snd solve ;;
     ax <- np_dot amat x ;;
     r <- np_subtract b ax ;;
     Ok (x, r)).

End Solver.

(** ** Concrete inputs *)

(** [np.zeros(sh)] as a [float64] array. *)
Definition zeros64 (sh : list nat) : ndarray float :=
  mk_ndarray sh (repeat zero (fold_right Nat.mul 1%nat sh)).

(** A NumPy that still has [np.int], and one that does not; both on a
    machine whose out-of-range conversions wrap. *)
Definition legacy : platform := mk_platform true false cast_wrapping.
Definition modern : platform := mk_platform false true cast_wrapping.

(** [b1 = np.zeros((1, 11))] and [b2 = b1 + 2 * np.pi * 1]. *)
Definition one_cycle_ahead : ndarray float :=
  mk_ndarray [1; 11]%nat (repeat two_pi 11).

(** [b2] with [b2[0, 0] = 40000 * (2 * np.pi)] and zeros elsewhere: 40000
    cycles ahead of [np.zeros((1, 11))] at the first sample. *)
Definition far_ahead : ndarray float :=
  mk_ndarray [1; 11]%nat (mul64 (of_Z64 40000) two_pi :: repeat zero 10).

(** [b2] with [b2[0, 0] = 6283.28] and zeros elsewhere: about 1000.015
    cycles ahead of [np.zeros((1, 11))] at the first sample. *)
Definition off_cycle : ndarray float :=
  mk_ndarray [1; 11]%nat
             (div64 (of_Z64 628328) (of_Z64 100) :: repeat zero 10).

(** The 1x1 sparse matrix [[1.0]] and the right-hand side [[1.0]]. *)
Definition one : float := of_Z64 1.
Definition unit_csr : csr_matrix := mk_csr (1, 1)%nat [((0, 0)%nat, one)].

(** An empty dense matrix of shape (0, 3), and solvers that must not be
    reached. *)
Definition empty_dense : matrix := Dense (0, 3)%nat [].
Definition no_lsq_dense (a : list (list float)) (b : list float)
  : result (list float) := Raise LinAlgError.
Definition no_lsq_sparse (a : csr_matrix) (b : list float)
  : result (list float) := Raise LinAlgError.

(** Two clouds of 64-bit integers whose encodings overflow. *)
Definition far_cloud : cloud := [(2 ^ 62, 3)].
Definition near_cloud : cloud := [(0, 3)].
Definition mixed_cloud : cloud := [(2 ^ 62, 3); (0, 3)].

(** ** Notions for the further properties *)

(** The order of the returned points: by first coordinate, then by second. *)
Definition lex_lt (p q : point) : Prop :=
  fst p < fst q \/ (fst p = fst q /\ snd p < snd q).

(** The rows of [c] at the indices [ii]. *)
Definition rows_at (c : cloud) (ii : list nat) : list point :=
  map (fun i => nth i c (0, 0)) ii.

(** The outcome with the two index sequences exchanged. *)
Definition exchange (r : result (list nat * list nat))
  : result (list nat * list nat) :=
  match r with
  | Ok (ii, jj) => Ok (jj, ii)
  | Raise e => Raise e
  end.

(** The clouds of the specification's example, and two with a repeated
    point. *)
Definition spec_cloud1 : cloud := [(0, 0); (1, 2); (3, 3)].
Definition spec_cloud2 : cloud := [(1, 2); (5, 5); (3, 3)].
Definition repeated_cloud1 : cloud := [(1, 2); (1, 2); (3, 3)].
Definition repeated_cloud2 : cloud := [(3, 4); (1, 2); (1, 2)].

(** The element's [float64] difference [x2 - x1] is the [float64] product
    of an integer [k] of at most 1000 cycles and [2 * np.pi]. *)
Definition whole_cycles (k : Z) (x1 x2 : float) : Prop :=
  -1000 <= k <= 1000 /\ sub64 x2 x1 = mul64 (of_Z64 k) two_pi.

(** Lines 71-75 on such a difference: the stored rounding is [k] and the
    tolerance test passes. *)
Definition exact_cycle (k : Z) : bool :=
  let d := to32 (div64 (mul64 (of_Z64 k) two_pi) two_pi) in
  match trunc_Z (rint32 d) with
  | Some z => (z =? k) && isclose d k
  | None => false
  end.

(** The roundings line 72 stores for the elements of two arrays. *)
Definition stored_cycles (pf : platform) (b1 b2 : ndarray float) : list Z :=
  map (fun x => astype_int16 pf (rint32 (cycle_diff (fst x) (snd x))))
      (combine (data b1) (data b2)).


Definition unstored_csr : csr_matrix := mk_csr (2, 2)%nat [].

(** [np.zeros((1, 11))] with a NaN, and with an infinity, as first sample. *)
Definition with_nan : ndarray float :=
  mk_ndarray [1; 11]%nat (S754_nan :: repeat zero 10).
Definition with_inf : ndarray float :=
  mk_ndarray [1; 11]%nat (S754_infinity false :: repeat zero 10).

(** * Properties *)

(** ** Fixed-width integers *)

Lemma wrap_small (w z : Z) :
  0 < w -> - 2 ^ (w - 1) <= z < 2 ^ (w - 1) -> wrap w z = z.
Proof.
  intros Hw Hz. unfold wrap.
  assert (E : 2 ^ w = 2 * 2 ^ (w - 1)).
  { replace w with (Z.succ (w - 1)) at 1 by lia. apply Z.pow_succ_r. lia. }
  rewrite Z.mod_small; lia.
Qed.

(** ** NumPy helpers *)

Lemma fold_max_shift (l : list Z) (a b : Z) :
  Z.max b (fold_left Z.max l a) = fold_left Z.max l (Z.max b a).
Proof.
  revert a b. induction l as [|x l IH]; intros a b; simpl; [reflexivity|].
  rewrite IH. f_equal. lia.
Qed.

Lemma fold_max_ge (l : list Z) (a : Z) :
  a <= fold_left Z.max l a /\ Forall (fun x => x <= fold_left Z.max l a) l.
Proof.
  revert a. induction l as [|x l IH]; intros a; simpl.
  - split; [lia | constructor].
  - destruct (IH (Z.max a x)) as [H1 H2]. split; [lia|].
    constructor; [lia | exact H2].
Qed.

Lemma fold_min_ge (l : list Z) (a lo : Z) :
  lo <= a -> Forall (fun x => lo <= x) l -> lo <= fold_left Z.min l a.
Proof.
  revert a. induction l as [|x l IH]; intros a Ha Hl; simpl; [exact Ha|].
  inversion Hl; subst. apply IH; [lia | assumption].
Qed.

Lemma index_of_nth (v : Z) (l : list Z) :
  In v l -> nth_error l (NumPy.index_of v l) = Some v.
Proof.
  induction l as [|x l IH]; simpl; [tauto|].
  intros H. destruct (Z.eqb_spec x v) as [->|Hne]; [reflexivity|].
  destruct H as [H|H]; [contradiction|]. simpl. auto.
Qed.

Lemma insert_uniq_In (v x : Z) (l : list Z) :
  In x (NumPy.insert_uniq v l) <-> x = v \/ In x l.
Proof.
  induction l as [|y l IH]; simpl; [intuition|].
  destruct (Z.ltb_spec v y); simpl; [intuition|].
  destruct (Z.eqb_spec v y); simpl; [subst; intuition|].
  rewrite IH. intuition.
Qed.

Lemma insert_uniq_sorted (v : Z) (l : list Z) :
  StronglySorted Z.lt l -> StronglySorted Z.lt (NumPy.insert_uniq v l).
Proof.
  induction 1 as [|y l Hs IH Hy]; simpl.
  - repeat constructor.
  - destruct (Z.ltb_spec v y).
    + constructor; [constructor; assumption|].
      constructor; [assumption|].
      eapply Forall_impl; [|exact Hy]. simpl; intros; lia.
    + destruct (Z.eqb_spec v y); [constructor; assumption|].
      constructor; [exact IH|].
      rewrite Forall_forall in *. intros x Hx.
      apply insert_uniq_In in Hx. destruct Hx as [->|Hx]; [lia | auto].
Qed.

Lemma unique_In (x : Z) (l : list Z) : In x (NumPy.unique l) <-> In x l.
Proof.
  unfold NumPy.unique. induction l as [|y l IH]; simpl; [tauto|].
  rewrite insert_uniq_In, IH. intuition.
Qed.

Lemma unique_sorted (l : list Z) : StronglySorted Z.lt (NumPy.unique l).
Proof.
  unfold NumPy.unique. induction l; simpl;
    [constructor | apply insert_uniq_sorted; assumption].
Qed.

Lemma sorted_lt_NoDup (l : list Z) : StronglySorted Z.lt l -> NoDup l.
Proof.
  induction 1 as [|y l Hs IH Hy]; constructor; [|exact IH].
  intros Hin. rewrite Forall_forall in Hy. specialize (Hy _ Hin). lia.
Qed.

Lemma mem_In (v : Z) (l : list Z) : NumPy.mem v l = true <-> In v l.
Proof.
  unfold NumPy.mem. rewrite existsb_exists. split.
  - intros [x [Hx E]]. apply Z.eqb_eq in E. now subst.
  - intros H. exists v. split; [assumption | apply Z.eqb_refl].
Qed.

(** The common values: without repetition, and exactly the values of both
    arrays. *)
Lemma intersect1d_common (ar1 ar2 : list Z) :
  let common := fst (NumPy.intersect1d ar1 ar2) in
  NoDup common /\ forall v, In v common <-> In v ar1 /\ In v ar2.
Proof.
  simpl. split.
  - apply NoDup_filter, sorted_lt_NoDup, unique_sorted.
  - intros v. rewrite filter_In, unique_In, mem_In. tauto.
Qed.

(** ** find_common_points *)

Lemma max_snd_ge (c : cloud) (p : point) : In p c -> snd p <= max_snd c.
Proof.
  intros H. unfold max_snd.
  destruct (fold_max_ge (map snd c) 0) as [_ HF].
  rewrite Forall_forall in HF. apply HF, in_map, H.
Qed.

Lemma amax_map_snd (c : cloud) :
  c <> [] -> nonneg c -> NumPy.amax (map snd c) = Ok (max_snd c).
Proof.
  destruct c as [|p c]; [congruence|]. intros _ Hn.
  inversion Hn as [|? ? [_ Hy] _]; subst.
  unfold max_snd. simpl. f_equal. f_equal. lia.
Qed.

Lemma elements_nonneg (c : cloud) :
  nonneg c -> Forall (fun x => 0 <= x) (elements c).
Proof.
  induction 1 as [|p c [Hx Hy] _ IH]; simpl; repeat constructor; assumption.
Qed.

Lemma amin_elements (c : cloud) :
  c <> [] -> nonneg c -> exists lo, NumPy.amin (elements c) = Ok lo /\ 0 <= lo.
Proof.
  destruct c as [|p c]; [congruence|]. intros _ Hn.
  apply elements_nonneg in Hn.
  change (elements (p :: c)) with (fst p :: (snd p :: elements c)) in *.
  inversion Hn as [|? ? Hx Ht]; subst.
  eexists; split; [reflexivity|]. apply fold_min_ge; assumption.
Qed.

Section Encoding.

Variables (w : Z) (c1 c2 : cloud).
Hypothesis width : 0 < w.
Hypothesis nonneg1 : nonneg c1.
Hypothesis nonneg2 : nonneg c2.
Hypothesis no_overflow : fits w c1 c2.

Let m := stride c1 c2.

Lemma stride_bounds : 0 < m < 2 ^ (w - 1).
Proof.
  split; [|exact (proj1 no_overflow)].
  unfold m, stride, max_snd.
  pose proof (proj1 (fold_max_ge (map snd c1) 0)). lia.
Qed.

Lemma point_bounds (p : point) :
  In p (c1 ++ c2) ->
  0 <= fst p /\ 0 <= snd p < m /\ fst p * m + snd p < 2 ^ (w - 1).
Proof.
  intros Hin.
  assert (Hn : 0 <= fst p /\ 0 <= snd p).
  { apply in_app_or in Hin. unfold nonneg in *. rewrite Forall_forall in *.
    destruct Hin; auto. }
  assert (Hy : snd p <= Z.max (max_snd c1) (max_snd c2)).
  { apply in_app_or in Hin. destruct Hin as [H|H]; apply max_snd_ge in H; lia. }
  destruct no_overflow as [_ HF]. rewrite Forall_forall in HF.
  specialize (HF _ Hin). fold m in HF. unfold m at 1, stride. lia.
Qed.

(** Without overflow the [w]-bit encoding is the exact one. *)
Lemma encode_exact (p : point) :
  In p (c1 ++ c2) -> encode w (wrap w m) p = key c1 c2 p.
Proof.
  intros Hin. destruct (point_bounds p Hin) as (Hx & Hy & Hk).
  pose proof stride_bounds as Hm.
  assert (0 < 2 ^ (w - 1)) by (apply Z.pow_pos_nonneg; lia).
  assert (0 <= fst p * m) by (apply Z.mul_nonneg_nonneg; lia).
  unfold encode, key. fold m.
  rewrite (wrap_small w m) by lia.
  rewrite (wrap_small w (fst p * m)) by lia.
  apply wrap_small; lia.
Qed.

(** The exact encoding is injective on the points of the two clouds. *)
Lemma key_injective (p q : point) :
  In p (c1 ++ c2) -> In q (c1 ++ c2) ->
  key c1 c2 p = key c1 c2 q -> p = q.
Proof.
  intros Hp Hq E. unfold key in E. fold m in E.
  destruct (point_bounds p Hp) as (_ & Hyp & _).
  destruct (point_bounds q Hq) as (_ & Hyq & _).
  destruct (Z.div_mod_unique m (fst p) (fst q) (snd p) (snd q)) as [E1 E2];
    [left; lia | left; lia | lia |].
  destruct p, q; simpl in *; congruence.
Qed.

Lemma map_encode_exact (c : cloud) :
  incl c (c1 ++ c2) -> map (encode w (wrap w m)) c = map (key c1 c2) c.
Proof.
  intros Hc. apply map_ext_in. intros p Hp. apply encode_exact, Hc, Hp.
Qed.

(** The outcome of the call on clouds that are not empty. *)
Lemma find_common_points_eq :
  c1 <> [] -> c2 <> [] ->
  find_common_points w c1 c2 =
  Ok (snd (NumPy.intersect1d (map (key c1 c2) c1) (map (key c1 c2) c2))).
Proof.
  intros Hne1 Hne2. unfold find_common_points.
  destruct (amin_elements c1 Hne1 nonneg1) as (lo1 & -> & Hlo1).
  destruct (amin_elements c2 Hne2 nonneg2) as (lo2 & -> & Hlo2).
  simpl bind.
  replace (Z.min lo1 lo2 >=? 0) with true by (symmetry; apply Z.geb_le; lia).
  rewrite (amax_map_snd c1 Hne1 nonneg1), (amax_map_snd c2 Hne2 nonneg2).
  simpl bind. fold (stride c1 c2). fold m.
  rewrite !map_encode_exact; [reflexivity | apply incl_appr, incl_refl
                             | apply incl_appl, incl_refl].
Qed.

(** A returned pair of indices points at one and the same point. *)
Lemma common_value_point (v : Z) :
  In v (map (key c1 c2) c1) -> In v (map (key c1 c2) c2) ->
  exists p,
    key c1 c2 p = v /\
    nth_error c1 (NumPy.index_of v (map (key c1 c2) c1)) = Some p /\
    nth_error c2 (NumPy.index_of v (map (key c1 c2) c2)) = Some p.
Proof.
  intros H1 H2.
  apply index_of_nth in H1. apply index_of_nth in H2.
  rewrite nth_error_map in H1, H2.
  destruct (nth_error c1 _) as [p|] eqn:E1; [|discriminate].
  destruct (nth_error c2 _) as [q|] eqn:E2; [|discriminate].
  simpl in H1, H2. injection H1 as K1. injection H2 as K2.
  assert (p = q).
  { apply key_injective; [| |congruence].
    - apply in_or_app; left. eapply nth_error_In; eassumption.
    - apply in_or_app; right. eapply nth_error_In; eassumption. }
  subst q. exists p. auto.
Qed.

End Encoding.

(** C4 (as amended).  For non-empty clouds of non-negative [w]-bit integers
    whose stride [m' = 1 + max y] and encoded keys [x * m' + y] stay below
    [2^(w-1)], [find_common_points] returns index sequences [ii], [jj] of
    equal length, and for every position [k] the index [ii[k]] is valid in
    [c1], [jj[k]] is valid in [c2], and [c1[ii[k]] = c2[jj[k]]]. *)
Theorem find_common_points_sound (w : Z) (c1 c2 : cloud) :
  0 < w -> c1 <> [] -> c2 <> [] -> nonneg c1 -> nonneg c2 -> fits w c1 c2 ->
  exists ii jj,
    find_common_points w c1 c2 = Ok (ii, jj) /\ index_pairs_agree c1 c2 ii jj.
Proof.
  intros Hw Hne1 Hne2 Hn1 Hn2 Hfit.
  rewrite (find_common_points_eq w c1 c2 Hw Hn1 Hn2 Hfit Hne1 Hne2).
  destruct (intersect1d_common (map (key c1 c2) c1) (map (key c1 c2) c2))
    as [_ Hin].
  simpl in *. set (common := filter _ _) in *.
  eexists _, _. split; [reflexivity|]. split.
  - now rewrite !length_map.
  - rewrite length_map. intros k Hk.
    destruct (nth_error common k) as [v|] eqn:Ev;
      [|apply nth_error_None in Ev; lia].
    destruct (proj1 (Hin v) (nth_error_In _ _ Ev)) as [H1 H2].
    destruct (common_value_point w c1 c2 Hn1 Hn2 Hfit v H1 H2)
      as (p & _ & E1 & E2).
    exists p. unfold represents. eexists _, _.
    rewrite !nth_error_map, Ev. simpl. auto.
Qed.

Lemma find_common_points_sound_witness :
  exists ii jj,
    find_common_points 64 [(0, 0); (1, 2); (3, 3)] [(1, 2); (5, 5); (3, 3)]
    = Ok (ii, jj) /\
    index_pairs_agree [(0, 0); (1, 2); (3, 3)] [(1, 2); (5, 5); (3, 3)] ii jj.
Proof.
  apply find_common_points_sound.
  - lia.
  - discriminate.
  - discriminate.
  - repeat constructor; simpl; lia.
  - repeat constructor; simpl; lia.
  - split; [vm_compute; reflexivity | repeat constructor; vm_compute; reflexivity].
Defined.

(** C4 as stated fails: the clouds [[2^62, 3]] and [[0, 3]] of 64-bit
    integers get the same encoded key, and the returned pair of indices
    points at two different points. *)
Lemma find_common_points_overflow :
  far_cloud <> [] /\ near_cloud <> [] /\
  nonneg far_cloud /\ nonneg near_cloud /\
  find_common_points 64 far_cloud near_cloud = Ok ([0%nat], [0%nat]) /\
  ~ index_pairs_agree far_cloud near_cloud [0%nat] [0%nat].
Proof.
  split; [discriminate|]. split; [discriminate|].
  split; [repeat constructor; simpl; lia|].
  split; [repeat constructor; simpl; lia|].
  split; [vm_compute; reflexivity|].
  intros [_ H]. destruct (H 0%nat) as (p & i & j & Ei & Ej & E1 & E2).
  - simpl; lia.
  - simpl in Ei, Ej. injection Ei as <-. injection Ej as <-.
    simpl in E1, E2. rewrite <- E2 in E1. discriminate.
Qed.

(** C5 (as amended).  Under the same conditions every point that occurs in
    both clouds stands at exactly one position of the returned index
    sequences, however often it occurs within one cloud. *)
Theorem find_common_points_exactly_once (w : Z) (c1 c2 : cloud) :
  0 < w -> c1 <> [] -> c2 <> [] -> nonneg c1 -> nonneg c2 -> fits w c1 c2 ->
  exists ii jj,
    find_common_points w c1 c2 = Ok (ii, jj) /\
    forall p, In p c1 -> In p c2 ->
      exists k, represents c1 c2 ii jj k p /\
                forall k', represents c1 c2 ii jj k' p -> k' = k.
Proof.
  intros Hw Hne1 Hne2 Hn1 Hn2 Hfit.
  rewrite (find_common_points_eq w c1 c2 Hw Hn1 Hn2 Hfit Hne1 Hne2).
  destruct (intersect1d_common (map (key c1 c2) c1) (map (key c1 c2) c2))
    as [Hnd Hin].
  simpl in *. set (common := filter _ _) in *.
  eexists _, _. split; [reflexivity|]. intros p Hp1 Hp2.
  assert (H1 : In (key c1 c2 p) (map (key c1 c2) c1)) by now apply in_map.
  assert (H2 : In (key c1 c2 p) (map (key c1 c2) c2)) by now apply in_map.
  destruct (In_nth_error _ _ (proj2 (Hin _) (conj H1 H2))) as [k Ek].
  exists k. split.
  - destruct (common_value_point w c1 c2 Hn1 Hn2 Hfit _ H1 H2)
      as (q & Kq & E1 & E2).
    assert (q = p).
    { apply (key_injective w c1 c2 Hn1 Hn2 Hfit); [| |exact Kq];
        apply in_or_app; left; [eapply nth_error_In; eassumption | assumption]. }
    subst q. unfold represents. eexists _, _.
    rewrite !nth_error_map, Ek. simpl. auto.
  - intros k' (i & j & Ei & _ & E1 & _).
    rewrite nth_error_map in Ei.
    destruct (nth_error common k') as [v|] eqn:Ev; [|discriminate].
    simpl in Ei. injection Ei as <-.
    pose proof (proj1 (proj1 (Hin v) (nth_error_In _ _ Ev))) as Hv.
    apply index_of_nth in Hv. rewrite nth_error_map, E1 in Hv.
    simpl in Hv. injection Hv as Hv.
    assert (Hlt : (k' < length common)%nat)
      by (apply nth_error_Some; congruence).
    apply (proj1 (NoDup_nth_error common) Hnd k' k Hlt). congruence.
Qed.

Lemma find_common_points_exactly_once_witness :
  exists ii jj,
    find_common_points 64 [(1, 2); (1, 2); (3, 3)] [(3, 3); (1, 2); (3, 3)]
    = Ok (ii, jj) /\
    forall p, In p [(1, 2); (1, 2); (3, 3)] -> In p [(3, 3); (1, 2); (3, 3)] ->
      exists k,
        represents [(1, 2); (1, 2); (3, 3)] [(3, 3); (1, 2); (3, 3)] ii jj k p /\
        forall k',
          represents [(1, 2); (1, 2); (3, 3)] [(3, 3); (1, 2); (3, 3)] ii jj k' p ->
          k' = k.
Proof.
  apply find_common_points_exactly_once.
  - lia.
  - discriminate.
  - discriminate.
  - repeat constructor; simpl; lia.
  - repeat constructor; simpl; lia.
  - split; [vm_compute; reflexivity | repeat constructor; vm_compute; reflexivity].
Defined.

(** C5 as stated fails: [(0, 3)] occurs in both [[2^62, 3], [0, 3]] and
    [[0, 3]], the only returned pair of indices is [(0, 0)], and [c1[0]] is
    the other point. *)
Lemma find_common_points_overflow_missing :
  mixed_cloud <> [] /\ near_cloud <> [] /\
  nonneg mixed_cloud /\ nonneg near_cloud /\
  In (0, 3) mixed_cloud /\ In (0, 3) near_cloud /\
  find_common_points 64 mixed_cloud near_cloud = Ok ([0%nat], [0%nat]) /\
  ~ exists k, represents mixed_cloud near_cloud [0%nat] [0%nat] k (0, 3).
Proof.
  split; [discriminate|]. split; [discriminate|].
  split; [repeat constructor; simpl; lia|].
  split; [repeat constructor; simpl; lia|].
  split; [simpl; auto|]. split; [simpl; auto|].
  split; [vm_compute; reflexivity|].
  intros (k & i & j & Ei & _ & E1 & _).
  destruct k as [|k]; simpl in Ei; [|destruct k; discriminate].
  injection Ei as <-. simpl in E1. discriminate.
Qed.

(** ** pairwise_unwrapped_diff *)

Lemma rank_indices_11 :
  rank_indices 11 = [0; 110; 220; 330; 440; 550; 660; 770; 880; 990; 1100].
Proof. vm_compute. reflexivity. Qed.

(** The gather of line 84 with the indices of line 78 fails on every array
    of 11 columns that has a row. *)
Lemma take_columns_rank_indices (pf : platform) (bands : nat) (l : list Z) :
  take_columns (strict_empty_index pf) bands 11 l (rank_indices 11)
  = gather_outcome pf bands.
Proof.
  rewrite rank_indices_11. unfold take_columns, gather_outcome.
  change (normalize_indices 11 _) with (@Raise (list nat) IndexError).
  cbv iota. destruct bands; [reflexivity|].
  rewrite !andb_false_r. reflexivity.
Qed.

Lemma shape_eqb_eq (s1 s2 : list nat) : shape_eqb s1 s2 = true <-> s1 = s2.
Proof.
  unfold shape_eqb. destruct (list_eq_dec Nat.eq_dec s1 s2); split;
    congruence.
Qed.

(** Line 75 tests every pair of input elements with [cycle_ok]. *)
Lemma allclose_cycle_ok (pf : platform) (l : list (float * float)) :
  let diff := map (fun x => cycle_diff (fst x) (snd x)) l in
  allclose diff (map (fun d => astype_int16 pf (rint32 d)) diff)
  = forallb (fun x => cycle_ok pf (fst x) (snd x)) l.
Proof.
  unfold allclose. induction l as [|x l IH]; simpl; [reflexivity|].
  simpl in IH. rewrite IH. reflexivity.
Qed.

(** The function on inputs that pass the three shape checks. *)
Lemma pairwise_unwrapped_diff_accepted (pf : platform) (b1 b2 : ndarray float) :
  shape b1 = shape b2 -> ndim b1 = 2%nat -> nth 1 (shape b1) O = 11%nat ->
  pairwise_unwrapped_diff pf b1 b2 =
  if forallb (fun x => cycle_ok pf (fst x) (snd x))
             (combine (data b1) (data b2))
  then if np_has_int pf then gather_outcome pf (nth 0 (shape b1) O)
       else Raise AttributeError
  else Raise (AssertionError msg_cycles).
Proof.
  intros Hs Hd Hn. unfold pairwise_unwrapped_diff.
  rewrite (proj2 (shape_eqb_eq _ _) Hs), Hd, Hn. simpl negb. cbv iota.
  rewrite allclose_cycle_ok.
  destruct (forallb _ _); [|reflexivity].
  destruct (np_has_int pf); simpl negb; cbv iota; [|reflexivity].
  apply take_columns_rank_indices.
Qed.

(** The sample-count check of line 63 rejects every width but 11. *)
Lemma sample_check_exact (pf : platform) (b1 b2 : ndarray float) :
  shape b1 = shape b2 -> ndim b1 = 2%nat -> nth 1 (shape b1) O <> 11%nat ->
  pairwise_unwrapped_diff pf b1 b2 = Raise (ValueError msg_samples).
Proof.
  intros Hs Hd Hn. unfold pairwise_unwrapped_diff.
  rewrite (proj2 (shape_eqb_eq _ _) Hs), Hd. simpl negb. cbv iota.
  apply Nat.eqb_neq in Hn. rewrite Hn. reflexivity.
Qed.

(** C1.  At 11 samples the code gathers at the positions
    0, 110, ..., 1100 ([p * samples], not [floor(p/100 * samples)]): they
    are not the ranks 0..10, all but the first lie outside [0, 10], and the
    call on [np.zeros((1, 11))] raises [IndexError] instead of returning an
    array of shape (1, 11). *)
Theorem rank_positions_out_of_range :
  rank_indices 11 = [0; 110; 220; 330; 440; 550; 660; 770; 880; 990; 1100] /\
  filter (fun i => (0 <=? i) && (i <=? 10)) (rank_indices 11) = [0] /\
  pairwise_unwrapped_diff legacy (zeros64 [1; 11]%nat) (zeros64 [1; 11]%nat)
  = Raise IndexError.
Proof.
  split; [exact rank_indices_11|].
  split; [rewrite rank_indices_11; reflexivity|].
  vm_compute. reflexivity.
Qed.

(** C2.  Equal-shape 2-D inputs with 12 samples per band are rejected by
    the sample-count check, although 12 >= 11. *)
Theorem twelve_samples_rejected (pf : platform) :
  pairwise_unwrapped_diff pf (zeros64 [1; 12]%nat) (zeros64 [1; 12]%nat)
  = Raise (ValueError msg_samples).
Proof. apply sample_check_exact; [reflexivity | reflexivity | discriminate]. Qed.

(** C3.  On every input the call raises, or the input has no band at all
    and the call returns the empty array of shape (0, 11): no output value
    is ever returned.  In particular with [b1 = 0] and [b2 = b1 + 2 * pi * 1]
    on one band of 11 samples the tolerance check passes, the rounded
    differences are all 1, and the call raises [IndexError], where the
    claim has it return a row of eleven ones. *)
Theorem pairwise_unwrapped_diff_never_returns :
  (forall pf b1 b2,
      (exists e, pairwise_unwrapped_diff pf b1 b2 = Raise e) \/
      (nth 0 (shape b1) O = 0%nat /\
       pairwise_unwrapped_diff pf b1 b2 = Ok (mk_ndarray [0; 11]%nat []))) /\
  forallb (fun x => cycle_ok legacy (fst x) (snd x))
          (combine (data (zeros64 [1; 11]%nat)) (data one_cycle_ahead)) = true /\
  map (fun x => astype_int16 legacy (rint32 (cycle_diff (fst x) (snd x))))
      (combine (data (zeros64 [1; 11]%nat)) (data one_cycle_ahead))
  = repeat 1 11 /\
  pairwise_unwrapped_diff legacy (zeros64 [1; 11]%nat) one_cycle_ahead
  = Raise IndexError.
Proof.
  split; [|repeat split; vm_compute; reflexivity].
  intros pf b1 b2.
  destruct (list_eq_dec Nat.eq_dec (shape b1) (shape b2)) as [Hs|Hs].
  - destruct (Nat.eq_dec (ndim b1) 2) as [Hd|Hd].
    + destruct (Nat.eq_dec (nth 1 (shape b1) O) 11) as [Hn|Hn].
      * rewrite (pairwise_unwrapped_diff_accepted pf b1 b2 Hs Hd Hn).
        destruct (forallb _ _); [destruct (np_has_int pf)|]; eauto.
        unfold gather_outcome.
        destruct (Nat.eqb_spec (nth 0 (shape b1) O) 0) as [Hb|Hb];
          [|rewrite andb_false_r; eauto].
        destruct (strict_empty_index pf); simpl; eauto.
      * rewrite (sample_check_exact pf b1 b2 Hs Hd Hn). eauto.
    + left. unfold pairwise_unwrapped_diff.
      rewrite (proj2 (shape_eqb_eq _ _) Hs). simpl negb. cbv iota.
      apply Nat.eqb_neq in Hd. rewrite Hd. simpl. eauto.
  - left. unfold pairwise_unwrapped_diff.
    destruct (shape_eqb (shape b1) (shape b2)) eqn:E;
      [apply shape_eqb_eq in E; contradiction | simpl; eauto].
Qed.

Lemma forallb_false_Exists {A : Type} (f : A -> bool) (l : list A) :
  forallb f l = false <-> Exists (fun x => f x = false) l.
Proof.
  induction l as [|x l IH]; simpl.
  - split; [discriminate | intros H; inversion H].
  - rewrite andb_false_iff, IH. split.
    + intros [H|H]; [left | right]; assumption.
    + intros H. inversion H; subst; auto.
Qed.

(** C8 (as amended).  On equal-shape 2-D inputs that pass the sample-count
    check (11 samples per band) the call raises the tolerance
    [AssertionError] of line 75 if and only if some element fails NumPy's
    closeness test [|d - n| <= 0.01 + 1e-5 * |n|], where [d] is the
    [float32] cycle difference and [n] its rounding as stored in [int16];
    when every element passes the test, so does the tolerance check. *)
Theorem tolerance_failure_iff (pf : platform) (b1 b2 : ndarray float) :
  shape b1 = shape b2 -> ndim b1 = 2%nat -> nth 1 (shape b1) O = 11%nat ->
  pairwise_unwrapped_diff pf b1 b2 = Raise (AssertionError msg_cycles) <->
  Exists (fun x => cycle_ok pf (fst x) (snd x) = false)
         (combine (data b1) (data b2)).
Proof.
  intros Hs Hd Hn.
  rewrite (pairwise_unwrapped_diff_accepted pf b1 b2 Hs Hd Hn).
  rewrite <- forallb_false_Exists.
  destruct (forallb _ _); [|tauto].
  split; [|discriminate].
  unfold gather_outcome.
  destruct (np_has_int pf); [destruct (_ && _)|]; discriminate.
Qed.

Lemma tolerance_failure_iff_witness :
  pairwise_unwrapped_diff legacy (zeros64 [1; 11]%nat) off_cycle
  = Raise (AssertionError msg_cycles) <->
  Exists (fun x => cycle_ok legacy (fst x) (snd x) = false)
         (combine (data (zeros64 [1; 11]%nat)) (data off_cycle)).
Proof.
  apply tolerance_failure_iff; reflexivity.
Defined.

(** C8 as stated fails.  With [b1 = 0] and [b2[0, 0] = 6283.28] the first
    cycle difference, about 1000.015, is more than 0.01 away from its
    nearest integer 1000, yet every element passes the tolerance test and
    no [AssertionError] is raised; and with [b1 = b2 = 0] no element is
    away from an integer, yet the call fails. *)
Lemma tolerance_is_not_absolute :
  existsb far_from_integer
    (map (fun x => cycle_diff (fst x) (snd x))
         (combine (data (zeros64 [1; 11]%nat)) (data off_cycle))) = true /\
  forallb (fun x => cycle_ok legacy (fst x) (snd x))
    (combine (data (zeros64 [1; 11]%nat)) (data off_cycle)) = true /\
  pairwise_unwrapped_diff legacy (zeros64 [1; 11]%nat) off_cycle
  <> Raise (AssertionError msg_cycles) /\
  existsb far_from_integer
    (map (fun x => cycle_diff (fst x) (snd x))
         (combine (data (zeros64 [1; 11]%nat)) (data (zeros64 [1; 11]%nat))))
  = false /\
  pairwise_unwrapped_diff legacy (zeros64 [1; 11]%nat) (zeros64 [1; 11]%nat)
  = Raise IndexError.
Proof.
  split; [vm_compute; reflexivity|].
  split; [vm_compute; reflexivity|].
  split; [vm_compute; discriminate|].
  split; vm_compute; reflexivity.
Qed.

(** ** l2_min *)

Section SolverProperties.

Variable lsq_dense : list (list float) -> list float -> result (list float).
Variable lsq_sparse : csr_matrix -> list float -> result (list float).

(** A well-formed matrix without elements stores nothing. *)
Lemma np_size_empty (amat : matrix) :
  matrix_ok amat ->
  (fst (mat_shape amat) * snd (mat_shape amat) = 0)%nat ->
  np_size amat = 0%nat.
Proof.
  destruct amat as [sh rows | s]; simpl; intros Hok Hz; [exact Hz|].
  destruct (csr_entries s) as [|e es] eqn:E; [reflexivity|].
  unfold csr_ok in Hok. rewrite E in Hok.
  inversion Hok as [|? ? [Hr Hc] _]; subst. nia.
Qed.

Lemma np_size_nonempty (amat : matrix) :
  matrix_ok amat -> np_size amat <> 0%nat ->
  (fst (mat_shape amat) * snd (mat_shape amat) <> 0)%nat.
Proof.
  intros Hok Hs Hz. apply Hs, np_size_empty; assumption.
Qed.

(** The fast path of lines 109-112. *)
Lemma l2_min_fast_path (amat : matrix) (b : list float) (log : option logger) :
  np_size amat = 0%nat ->
  l2_min lsq_dense lsq_sparse amat b log =
  (match log with
   | Some _ => [Warning "A is empty; returning all zeros"]
   | None => []
   end,
   Ok (np_zeros (snd (mat_shape amat)),
       FloatArray (np_zeros (fst (mat_shape amat))))).
Proof.
  intros Hs. unfold l2_min. rewrite Hs. reflexivity.
Qed.

(** C6.  For a matrix of shape (R, C) without elements (R = 0 or C = 0),
    dense or sparse, and any right-hand side, [l2_min] returns the zero
    vector of length C and the zero vector of length R, and the call
    reaches no solver: its only possible event is the warning. *)
Theorem l2_min_empty (amat : matrix) (b : list float) (log : option logger) :
  matrix_ok amat ->
  (fst (mat_shape amat) * snd (mat_shape amat) = 0)%nat ->
  snd (l2_min lsq_dense lsq_sparse amat b log)
  = Ok (repeat zero (snd (mat_shape amat)),
        FloatArray (repeat zero (fst (mat_shape amat)))) /\
  ~ In SolveDense (fst (l2_min lsq_dense lsq_sparse amat b log)) /\
  ~ In SolveSparse (fst (l2_min lsq_dense lsq_sparse amat b log)).
Proof.
  intros Hok Hz.
  rewrite (l2_min_fast_path amat b log (np_size_empty amat Hok Hz)).
  split; [reflexivity|].
  destruct log; simpl; intuition discriminate.
Qed.

(** C10.  The row-count assertion of line 114 fails exactly when the
    matrix stores something and its row count differs from the length of
    [b]; so a matrix without elements gets its zero vectors whatever the
    length of [b], and a failed row-count assertion means a non-empty
    matrix. *)
Theorem l2_min_row_check (amat : matrix) (b : list float) (log : option logger) :
  matrix_ok amat ->
  ((fst (mat_shape amat) * snd (mat_shape amat) = 0)%nat ->
   snd (l2_min lsq_dense lsq_sparse amat b log)
   = Ok (np_zeros (snd (mat_shape amat)),
         FloatArray (np_zeros (fst (mat_shape amat))))) /\
  (l2_min lsq_dense lsq_sparse amat b log = ([], Raise (AssertionError "")) <->
   np_size amat <> 0%nat /\ fst (mat_shape amat) <> length b) /\
  (l2_min lsq_dense lsq_sparse amat b log = ([], Raise (AssertionError "")) ->
   (fst (mat_shape amat) * snd (mat_shape amat) <> 0)%nat).
Proof.
  intros Hok.
  assert (Hiff : l2_min lsq_dense lsq_sparse amat b log = ([], Raise (AssertionError "")) <->
                 np_size amat <> 0%nat /\ fst (mat_shape amat) <> length b).
  { unfold l2_min.
    destruct (Nat.eqb_spec (np_size amat) 0) as [Hs|Hs].
    - split; [destruct log; discriminate | tauto].
    - destruct (Nat.eqb_spec (fst (mat_shape amat)) (length b)) as [Hr|Hr];
        simpl negb; cbv iota.
      + split; [discriminate | tauto].
      + tauto. }
  split; [|split; [exact Hiff|]].
  - intros Hz.
    now rewrite (l2_min_fast_path amat b log (np_size_empty amat Hok Hz)).
  - intros H. apply np_size_nonempty; [exact Hok | apply Hiff, H].
Qed.

(** The dense branch: the second component is [b - A @ x] recomputed
    from the first. *)
Lemma l2_min_dense_residual (sh : nat * nat) (rows : list (list float))
      (b x : list float) (r : pyarray) (log : option logger) :
  snd (l2_min lsq_dense lsq_sparse (Dense sh rows) b log) = Ok (x, r) ->
  np_size (Dense sh rows) <> 0%nat ->
  length rows = fst sh ->
  r = FloatArray (vsub b (matvec rows x)).
Proof.
  intros H Hs Hrows. unfold l2_min in H.
  apply Nat.eqb_neq in Hs. rewrite Hs in H.
  destruct (Nat.eqb_spec (fst (mat_shape (Dense sh rows))) (length b))
    as [Hr|Hr]; simpl negb in H; cbv iota in H; [|discriminate].
  simpl in H. destruct (lsq_dense rows b) as [x'|]; [|discriminate].
  simpl in H. destruct (Nat.eqb (snd sh) (length x')); [|discriminate].
  simpl in H. unfold broadcast in H.
  assert (E : length b = length (matvec rows x')).
  { unfold matvec. rewrite length_map. simpl in Hr. congruence. }
  rewrite E, Nat.eqb_refl in H. simpl in H.
  injection H as <- <-. reflexivity.
Qed.

(** The sparse branch: whatever the solver returns, the second component
    is never a vector of numbers. *)
Lemma l2_min_sparse_residual (s : csr_matrix) (b x : list float)
      (v : list float) (log : option logger) :
  csr_entries s <> [] ->
  snd (l2_min lsq_dense lsq_sparse (Sparse s) b log) <> Ok (x, FloatArray v).
Proof.
  intros Hne H. unfold l2_min in H. simpl np_size in H.
  destruct (csr_entries s) as [|e es] eqn:E; [congruence|].
  simpl in H.
  destruct (Nat.eqb (fst (csr_shape s)) (length b)); simpl in H;
    [|discriminate].
  destruct (lsq_sparse s b) as [x'|]; simpl in H; [|discriminate].
  destruct (broadcast b (map (csr_scale s) x')) as [ps|]; simpl in H;
    [|discriminate].
  destruct (sequence _) as [rs|]; simpl in H; discriminate.
Qed.

(** C7.  On the sparse 1x1 system [[1.0]] x = [1.0] the call reaches the
    sparse solver and then either raises or returns an array of objects
    as its second component, never the vector [b - A @ x]; with any
    one-element solution it raises [NotImplementedError]. *)
Theorem l2_min_sparse_no_residual (log : option logger) :
  fst (l2_min lsq_dense lsq_sparse (Sparse unit_csr) [one] log) = [SolveSparse] /\
  (forall x v, snd (l2_min lsq_dense lsq_sparse (Sparse unit_csr) [one] log)
               <> Ok (x, FloatArray v)) /\
  match lsq_sparse unit_csr [one] with
  | Ok [x0] =>
      snd (l2_min lsq_dense lsq_sparse (Sparse unit_csr) [one] log)
      = Raise NotImplementedError
  | _ => True
  end.
Proof.
  split; [reflexivity|]. split.
  - intros x v. apply l2_min_sparse_residual. discriminate.
  - unfold l2_min. simpl.
    destruct (lsq_sparse unit_csr [one]) as [[|x0 [|x1 t]]|]; auto.
Qed.

End SolverProperties.

Lemma l2_min_empty_witness :
  snd (l2_min no_lsq_dense no_lsq_sparse empty_dense [one] (Some Logger))
  = Ok (repeat zero 3, FloatArray (repeat zero 0)) /\
  ~ In SolveDense
       (fst (l2_min no_lsq_dense no_lsq_sparse empty_dense [one] (Some Logger))) /\
  ~ In SolveSparse
       (fst (l2_min no_lsq_dense no_lsq_sparse empty_dense [one] (Some Logger))).
Proof.
  apply (l2_min_empty no_lsq_dense no_lsq_sparse empty_dense [one] (Some Logger)).
  - split; [reflexivity | constructor].
  - reflexivity.
Defined.

Lemma l2_min_row_check_witness :
  ((fst (mat_shape empty_dense) * snd (mat_shape empty_dense) = 0)%nat ->
   snd (l2_min no_lsq_dense no_lsq_sparse empty_dense [one; one] None)
   = Ok (np_zeros (snd (mat_shape empty_dense)),
         FloatArray (np_zeros (fst (mat_shape empty_dense))))) /\
  (l2_min no_lsq_dense no_lsq_sparse empty_dense [one; one] None
   = ([], Raise (AssertionError "")) <->
   np_size empty_dense <> 0%nat /\
   fst (mat_shape empty_dense) <> length [one; one]) /\
  (l2_min no_lsq_dense no_lsq_sparse empty_dense [one; one] None
   = ([], Raise (AssertionError "")) ->
   (fst (mat_shape empty_dense) * snd (mat_shape empty_dense) <> 0)%nat).
Proof.
  apply (l2_min_row_check no_lsq_dense no_lsq_sparse empty_dense [one; one] None).
  split; [reflexivity | constructor].
Defined.

(** ** IEEE-754 rounding

    The rounding of [spec_float] operations as integer arithmetic, for the
    facts the tolerance test of line 75 needs: a conversion that loses
    nothing keeps the value, and a large value stays large. *)

Lemma digits2_pos_size (p : positive) : digits2_pos p = Pos.size p.
Proof. induction p; simpl; congruence. Qed.

Lemma digits2_log2 (p : positive) :
  Zpos (digits2_pos p) = Z.log2 (Zpos p) + 1.
Proof.
  rewrite digits2_pos_size. destruct p; simpl; lia.
Qed.

Lemma iter_xO_pow (m d : positive) :
  Zpos (Pos.iter xO m d) = Zpos m * 2 ^ Zpos d.
Proof.
  induction d as [|d IH] using Pos.peano_ind.
  - simpl. lia.
  - rewrite Pos.iter_succ, Pos2Z.inj_succ, Z.pow_succ_r by lia.
    rewrite Pos2Z.inj_xO, IH. lia.
Qed.

Lemma shl_align_spec (mx : positive) (ex ex' : Z) :
  snd (shl_align mx ex ex') = Z.min ex ex' /\
  Zpos (fst (shl_align mx ex ex'))
  = Zpos mx * 2 ^ (ex - Z.min ex ex').
Proof.
  unfold shl_align. destruct (ex' - ex) as [|d|d] eqn:E; cbn [fst snd];
    [| pose proof (Pos2Z.is_pos d) | pose proof (Pos2Z.neg_is_neg d)].
  - replace (Z.min ex ex') with ex by lia. rewrite Z.sub_diag.
    change (2 ^ 0) with 1. split; [reflexivity | lia].
  - replace (Z.min ex ex') with ex by lia. rewrite Z.sub_diag.
    change (2 ^ 0) with 1. split; [reflexivity | lia].
  - replace (Z.min ex ex') with ex' by lia. split; [reflexivity|].
    rewrite iter_xO_pow. f_equal. f_equal. lia.
Qed.

Lemma shr_1_m (r : shr_record) :
  0 <= shr_m r -> shr_m (shr_1 r) = shr_m r / 2.
Proof.
  destruct r as [m r s]. simpl. intros Hm.
  rewrite <- Z.div2_div.
  destruct m as [|[p|p|]|p]; simpl; try reflexivity; lia.
Qed.

Lemma pow2_xO (p : positive) : 2 ^ Zpos p~0 = 2 ^ Zpos p * 2 ^ Zpos p.
Proof.
  rewrite <- Z.pow_add_r by lia. f_equal. lia.
Qed.

Lemma pow2_xI (p : positive) : 2 ^ Zpos p~1 = 2 * (2 ^ Zpos p * 2 ^ Zpos p).
Proof.
  rewrite <- Z.pow_add_r, <- Z.pow_succ_r by lia. f_equal. lia.
Qed.

Lemma iter_pos_shr_m (p : positive) (r : shr_record) :
  0 <= shr_m r ->
  0 <= shr_m (iter_pos shr_1 p r) /\
  shr_m (iter_pos shr_1 p r) = shr_m r / 2 ^ Zpos p.
Proof.
  revert r. induction p as [p IH|p IH|]; intros r Hr; simpl iter_pos.
  - assert (H1 : 0 <= shr_m (shr_1 r)).
    { rewrite shr_1_m by assumption. apply Z.div_pos; lia. }
    destruct (IH _ H1) as [H2 E2]. destruct (IH _ H2) as [H3 E3].
    split; [assumption|].
    assert (0 < 2 ^ Zpos p) by (apply Z.pow_pos_nonneg; lia).
    rewrite E3, E2, shr_1_m, pow2_xI by assumption.
    rewrite !Z.div_div by lia. reflexivity.
  - destruct (IH _ Hr) as [H2 E2]. destruct (IH _ H2) as [H3 E3].
    split; [assumption|].
    assert (0 < 2 ^ Zpos p) by (apply Z.pow_pos_nonneg; lia).
    rewrite E3, E2, pow2_xO. rewrite Z.div_div by lia. reflexivity.
  - rewrite shr_1_m by assumption. split; [apply Z.div_pos; lia | reflexivity].
Qed.

Lemma Zdigits2_log2 (m : Z) : 0 < m -> Zdigits2 m = Z.log2 m + 1.
Proof.
  destruct m as [|p|p]; try lia. intros _. apply digits2_log2.
Qed.

Lemma pow2_le_div (a k : Z) : 0 < a -> 0 <= k <= Z.log2 a -> 1 <= a / 2 ^ k.
Proof.
  intros Ha Hk. apply Z.div_le_lower_bound; [apply Z.pow_pos_nonneg; lia|].
  rewrite Z.mul_1_r. transitivity (2 ^ Z.log2 a).
  - apply Z.pow_le_mono_r; lia.
  - apply Z.log2_spec; assumption.
Qed.

Lemma log2_div_pow2 (a k : Z) :
  0 < a -> 0 <= k -> Z.log2 (a / 2 ^ k) = Z.max 0 (Z.log2 a - k).
Proof.
  intros Ha Hk. rewrite <- Z.shiftr_div_pow2 by assumption.
  apply Z.log2_shiftr; assumption.
Qed.

Section Rounding.

Variables prec emax : Z.
Hypothesis prec_pos : 0 < prec.

Lemma shr_record_of_loc_m (m : Z) (l : location) :
  shr_m (shr_record_of_loc m l) = m.
Proof. destruct l as [|[]]; reflexivity. Qed.

(** Shifting to the exponent the format wants for the value. *)
Lemma shr_fexp_spec (m e : Z) (l : location) :
  0 <= m ->
  let e' := Z.max e (fexp prec emax (Zdigits2 m + e)) in
  snd (shr_fexp prec emax m e l) = e' /\
  shr_m (fst (shr_fexp prec emax m e l)) = m / 2 ^ (e' - e) /\
  (e' = e -> fst (shr_fexp prec emax m e l) = shr_record_of_loc m l).
Proof.
  intros Hm e'. unfold shr_fexp, shr.
  destruct (fexp prec emax (Zdigits2 m + e) - e) as [|p|p] eqn:E;
    cbn [fst snd];
    [| pose proof (Pos2Z.is_pos p) | pose proof (Pos2Z.neg_is_neg p)].
  - replace (e' - e) with 0 by lia. rewrite Z.div_1_r, shr_record_of_loc_m.
    repeat split; lia.
  - replace (e' - e) with (Zpos p) by lia.
    assert (Hr : 0 <= shr_m (shr_record_of_loc m l))
      by now rewrite shr_record_of_loc_m.
    destruct (iter_pos_shr_m p _ Hr) as [_ ->].
    rewrite shr_record_of_loc_m. repeat split; lia.
  - replace (e' - e) with 0 by lia. rewrite Z.div_1_r, shr_record_of_loc_m.
    repeat split; lia.
Qed.

Lemma round_nearest_even_bounds (m : Z) (l : location) :
  m <= round_nearest_even m l <= m + 1.
Proof.
  unfold round_nearest_even. destruct l as [|[]]; try lia.
  destruct (Z.even m); lia.
Qed.

(** The rounding pipeline on a positive mantissa, as arithmetic. *)
Lemma binary_round_aux_spec (sx : bool) (mz : positive) (ez : Z) :
  let e1 := Z.max ez (fexp prec emax (Zpos (digits2_pos mz) + ez)) in
  exists mr : Z,
    Zpos mz / 2 ^ (e1 - ez) <= mr <= Zpos mz / 2 ^ (e1 - ez) + 1 /\
    (e1 = ez -> mr = Zpos mz) /\
    binary_round_aux prec emax sx (Zpos mz) ez loc_Exact =
    let e2 := Z.max e1 (fexp prec emax (Zdigits2 mr + e1)) in
    match mr / 2 ^ (e2 - e1) with
    | Z0 => S754_zero sx
    | Zpos m =>
        if e2 <=? emax - prec then S754_finite sx m e2 else S754_infinity sx
    | Zneg _ => S754_nan
    end.
Proof.
  intros e1. unfold binary_round_aux.
  destruct (shr_fexp_spec (Zpos mz) ez loc_Exact) as (Ee & Em & Ex); [lia|].
  change (Zdigits2 (Zpos mz)) with (Zpos (digits2_pos mz)) in *.
  fold e1 in Ee, Em, Ex.
  destruct (shr_fexp prec emax (Zpos mz) ez loc_Exact) as [mrs' e'].
  cbn [fst snd] in *. subst e'.
  set (mr := round_nearest_even (shr_m mrs') (loc_of_shr_record mrs')).
  assert (Hmr : shr_m mrs' <= mr <= shr_m mrs' + 1)
    by apply round_nearest_even_bounds.
  assert (Hpos : 0 <= mr).
  { rewrite Em in Hmr. 
    assert (0 <= Zpos mz / 2 ^ (e1 - ez)); [|lia].
    apply Z.div_pos; [lia|]. apply Z.pow_pos_nonneg; lia. }
  exists mr. split; [rewrite <- Em; exact Hmr|]. split.
  - intros H. specialize (Ex H). subst mr. rewrite Ex. reflexivity.
  - destruct (shr_fexp_spec mr e1 loc_Exact Hpos) as (Ee2 & Em2 & _).
    destruct (shr_fexp prec emax mr e1 loc_Exact) as [mrs'' e''].
    cbn [fst snd] in *. subst e''. cbv zeta. rewrite Em2. reflexivity.
Qed.

(** A rounded value is signed like its input and, when finite, has at most
    [prec] digits and an exponent of the format. *)
Lemma binary_round_aux_form (sx : bool) (mz : positive) (ez : Z) :
  match binary_round_aux prec emax sx (Zpos mz) ez loc_Exact with
  | S754_zero s | S754_infinity s => s = sx
  | S754_finite s m e =>
      s = sx /\ Zpos (digits2_pos m) <= prec /\
      emin prec emax <= e <= emax - prec
  | S754_nan => False
  end.
Proof.
  destruct (binary_round_aux_spec sx mz ez) as (mr & Hmr & _ & ->).
  cbv zeta.
  set (e1 := Z.max ez (fexp prec emax (Zpos (digits2_pos mz) + ez))) in *.
  set (e2 := Z.max e1 (fexp prec emax (Zdigits2 mr + e1))).
  assert (Hpos : 0 <= mr).
  { assert (0 <= Zpos mz / 2 ^ (e1 - ez)); [|lia].
    apply Z.div_pos; [lia|]. apply Z.pow_pos_nonneg; lia. }
  assert (H2 : 0 <= mr / 2 ^ (e2 - e1)).
  { apply Z.div_pos; [lia|]. apply Z.pow_pos_nonneg; lia. }
  destruct (mr / 2 ^ (e2 - e1)) as [|m|m] eqn:E; [reflexivity| |lia].
  destruct (Z.leb_spec e2 (emax - prec)); [|reflexivity].
  split; [reflexivity|].
  assert (Hmr0 : 0 < mr).
  { destruct (Z.eq_dec mr 0) as [->|]; [|lia]. rewrite Z.div_0_l in E;
      [discriminate|]. apply Z.pow_nonzero; lia. }
  assert (Hfe : forall x, emin prec emax <= fexp prec emax x /\
                          x - prec <= fexp prec emax x)
    by (intros x; unfold fexp; lia).
  pose proof (Hfe (Zdigits2 mr + e1)) as [F1 F2].
  assert (G1 : e1 <= e2) by apply Z.le_max_l.
  assert (G2 : fexp prec emax (Zdigits2 mr + e1) <= e2) by apply Z.le_max_r.
  pose proof (Zdigits2_log2 mr Hmr0) as Hd.
  split; [|lia].
  rewrite digits2_log2, <- E, log2_div_pow2 by lia. lia.
Qed.

Lemma shl_align_digits (m : positive) (e e' : Z) :
  Zpos (digits2_pos (fst (shl_align m e e'))) + snd (shl_align m e e')
  = Zpos (digits2_pos m) + e.
Proof.
  destruct (shl_align_spec m e e') as [-> E].
  rewrite !digits2_log2, E, Z.log2_mul_pow2 by lia. lia.
Qed.

Lemma binary_round_form (sx : bool) (m : positive) (e : Z) :
  match binary_round prec emax sx m e with
  | S754_zero s | S754_infinity s => s = sx
  | S754_finite s m' e' =>
      s = sx /\ Zpos (digits2_pos m') <= prec /\
      emin prec emax <= e' <= emax - prec
  | S754_nan => False
  end.
Proof.
  unfold binary_round.
  destruct (shl_align m e _) as [mz ez]. apply binary_round_aux_form.
Qed.

(** A value that already fits the format is kept as it is, at the exponent
    of the format. *)
Lemma binary_round_exact (sx : bool) (m : positive) (e : Z) :
  let fe := fexp prec emax (Zpos (digits2_pos m) + e) in
  fe <= e -> fe <= emax - prec ->
  exists mz, binary_round prec emax sx m e = S754_finite sx mz fe /\
             Zpos mz = Zpos m * 2 ^ (e - fe).
Proof.
  intros fe Hfe Hmax. unfold binary_round.
  pose proof (shl_align_digits m e fe) as HD.
  destruct (shl_align_spec m e fe) as [Ee Em].
  fold fe. destruct (shl_align m e fe) as [mz ez]. cbn [fst snd] in *.
  replace (Z.min e fe) with fe in * by lia. subst ez.
  destruct (binary_round_aux_spec sx mz fe) as (mr & _ & Hex & ->).
  rewrite HD in *. fold fe in Hex |- *.
  rewrite Z.max_id in *. rewrite (Hex eq_refl).
  change (Zdigits2 (Zpos mz)) with (Zpos (digits2_pos mz)).
  rewrite HD. fold fe. cbv zeta. rewrite !Z.max_id, Z.sub_diag.
  change (2 ^ 0) with 1. rewrite Z.div_1_r.
  destruct (Z.leb_spec fe (emax - prec)); [|lia].
  exists mz. split; [reflexivity | exact Em].
Qed.

(** A value above the smallest exponent of the format rounds to a finite
    value whose exponent is at least the one the format wants for it, or
    to an infinity. *)
Lemma binary_round_large (sx : bool) (m : positive) (e : Z) :
  let D := Zpos (digits2_pos m) + e in
  emin prec emax < D ->
  match binary_round prec emax sx m e with
  | S754_infinity s => s = sx
  | S754_finite s _ e' => s = sx /\ fexp prec emax D <= e'
  | _ => False
  end.
Proof.
  intros D HD. unfold binary_round.
  pose proof (shl_align_digits m e (fexp prec emax D)) as Hd.
  destruct (shl_align_spec m e (fexp prec emax D)) as [Ee _].
  fold D in Hd |- *.
  destruct (shl_align m e (fexp prec emax D)) as [mz ez]. cbn [fst snd] in *.
  destruct (binary_round_aux_spec sx mz ez) as (mr & Hmr & _ & ->).
  rewrite Hd in *. cbv zeta.
  set (e1 := Z.max ez (fexp prec emax D)) in *.
  set (e2 := Z.max e1 (fexp prec emax (Zdigits2 mr + e1))).
  assert (Hf : fexp prec emax D < D) by (unfold fexp; lia).
  assert (Hlz : Z.log2 (Zpos mz) = D - ez - 1)
    by (rewrite digits2_log2 in Hd; lia).
  assert (H1 : 1 <= Zpos mz / 2 ^ (e1 - ez))
    by (apply pow2_le_div; lia).
  assert (Hmr0 : 0 < mr) by lia.
  pose proof (Z.log2_nonneg mr) as Hl.
  assert (Hd2 : Zdigits2 mr = Z.log2 mr + 1) by now apply Zdigits2_log2.
  assert (G0 : emin prec emax <= fexp prec emax D) by (unfold fexp; lia).
  assert (G1 : fexp prec emax D <= e1) by apply Z.le_max_r.
  assert (G2 : e1 <= e2) by apply Z.le_max_l.
  assert (H2 : 1 <= mr / 2 ^ (e2 - e1)).
  { apply pow2_le_div; [assumption|]. split; [lia|]. subst e2. rewrite Hd2.
    unfold fexp. lia. }
  destruct (mr / 2 ^ (e2 - e1)) as [|m2|m2]; try lia.
  destruct (Z.leb_spec e2 (emax - prec)); [|reflexivity].
  split; [reflexivity | lia].
Qed.

End Rounding.

(** ** The tolerance test beyond the [int16] range *)

Lemma Z_range_In (n start : Z) (len : nat) :
  start <= n < start + Z.of_nat len -> In n (Z_range start len).
Proof.
  revert start. induction len as [|k IH]; intros start H; [lia|].
  simpl. destruct (Z.eq_dec start n); [left; assumption | right].
  apply IH. lia.
Qed.

Lemma in_int16_values (n : Z) : in_int16 n = true -> In n int16_values.
Proof.
  unfold in_int16. intros H.
  apply andb_true_iff in H. destruct H as [H1 H2].
  apply Z.leb_le in H1, H2. apply Z_range_In.
  rewrite Z2Nat.id by lia. unfold int16_min, int16_max in *. lia.
Qed.

(** The right-hand side of the test is below 1/2 for every [int16]. *)
Lemma tolerance_below_half (n : Z) :
  in_int16 n = true -> below_half (tolerance n) = true.
Proof.
  intros H. apply in_int16_values in H. revert n H.
  apply forallb_forall. vm_compute. reflexivity.
Qed.

(** A positive [float64] with an exponent of at least -53, or [+inf], is
    not below such a bound. *)
Lemma leb_below_half (x t : float) :
  below_half t = true -> at_least_half x -> leb x t = false.
Proof.
  destruct t as [| | |[] mt et]; try discriminate. simpl. intros Ht Hx.
  apply Z.leb_le in Ht.
  destruct x as [|[]| |[] m e]; simpl in Hx; try contradiction.
  - reflexivity.
  - unfold leb, SFleb. simpl.
    destruct (Z.compare_spec e et); lia || reflexivity.
Qed.

Lemma emin32 : emin 24 128 = -149.
Proof. reflexivity. Qed.

Lemma emin64 : emin 53 1024 = -1074.
Proof. reflexivity. Qed.

Lemma to32_is_float32 (x : float) : is_float32 (to32 x).
Proof.
  destruct x as [s|s| |s m e]; simpl; try exact I.
  pose proof (binary_round_form 24 128 ltac:(lia) s m e) as H.
  destruct (binary_round 24 128 s m e) as [| | |s' m' e']; try exact I.
  simpl. rewrite emin32 in H. change (128 - 24) with 104 in H. tauto.
Qed.

(** The conversion of a [float32] to [float64] keeps its value. *)
Lemma to64_exact (s : bool) (m : positive) (e : Z) :
  is_float32 (S754_finite s m e) ->
  exists mz fe,
    to64 (S754_finite s m e) = S754_finite s mz fe /\
    fe = Zpos (digits2_pos m) + e - 53 /\ fe <= e /\
    Zpos mz = Zpos m * 2 ^ (e - fe).
Proof.
  simpl. intros [Hd He].
  pose proof (Pos2Z.is_pos (digits2_pos m)) as Hp.
  assert (Hfe : fexp 53 1024 (Zpos (digits2_pos m) + e)
                = Zpos (digits2_pos m) + e - 53)
    by (unfold fexp; rewrite emin64; lia).
  destruct (binary_round_exact 53 1024 s m e) as (mz & E & Em);
    rewrite ?Hfe; try lia.
  rewrite Hfe in E, Em. exists mz, (Zpos (digits2_pos m) + e - 53).
  split; [exact E|]. split; [reflexivity|]. split; [lia | exact Em].
Qed.

(** A nonzero [int16] is exact in [float64]. *)
Lemma of_Z64_exact (n : Z) :
  in_int16 n = true -> n <> 0 ->
  exists my fy,
    of_Z64 n = S754_finite (n <? 0) my fy /\ fy <= 0 /\
    Zpos my = Z.abs n * 2 ^ (- fy).
Proof.
  unfold in_int16, int16_min, int16_max. intros H Hn.
  apply andb_true_iff in H. destruct H as [H1 H2].
  apply Z.leb_le in H1, H2.
  assert (Hexact : forall s p, Zpos p <= 32768 ->
            exists my fy, binary_round 53 1024 s p 0 = S754_finite s my fy /\
                          fy <= 0 /\ Zpos my = Zpos p * 2 ^ (- fy)).
  { intros s p Hp.
    assert (Hl : Z.log2 (Zpos p) <= 15).
    { change 15 with (Z.log2 32768). apply Z.log2_le_mono. assumption. }
    pose proof (Z.log2_nonneg (Zpos p)).
    assert (Hfe : fexp 53 1024 (Zpos (digits2_pos p) + 0)
                  = Z.log2 (Zpos p) - 52)
      by (unfold fexp; rewrite emin64, digits2_log2; lia).
    destruct (binary_round_exact 53 1024 s p 0) as (my & E & Em);
      rewrite ?Hfe; try lia.
    rewrite Hfe in E, Em. exists my, (Z.log2 (Zpos p) - 52).
    split; [exact E|]. split; [lia|].
    rewrite Em. reflexivity. }
  destruct n as [|p|p]; [congruence| |]; unfold of_Z64, binary_normalize.
  - apply Hexact. lia.
  - apply (Hexact true p). lia.
Qed.

Lemma round_half_even_nonneg (m k : Z) :
  0 <= m -> 0 <= round_half_even m k.
Proof.
  intros Hm. unfold round_half_even.
  assert (0 <= m / 2 ^ k).
  { destruct (Z.le_gt_cases 0 k).
    - apply Z.div_pos; [assumption | apply Z.pow_pos_nonneg; lia].
    - rewrite Z.pow_neg_r by assumption. rewrite Z.div_0_r. lia. }
  destruct (2 * (m mod 2 ^ k) ?= 2 ^ k); [destruct (Z.even _)| |]; lia.
Qed.

(** Rounding to nearest goes down by at most one half. *)
Lemma round_half_even_half (m k : Z) :
  0 <= k -> (2 * round_half_even m k - 1) * 2 ^ k <= 2 * m.
Proof.
  intros Hk. unfold round_half_even.
  assert (Hp : 0 < 2 ^ k) by (apply Z.pow_pos_nonneg; lia).
  pose proof (Z.div_mod m (2 ^ k) ltac:(lia)) as Hdm.
  pose proof (Z.mod_pos_bound m (2 ^ k) Hp) as Hr.
  set (q := m / 2 ^ k) in *. set (r := m mod 2 ^ k) in *.
  set (P := 2 ^ k) in *.
  destruct (Z.compare_spec (2 * r) P); [destruct (Z.even q)| |]; nia.
Qed.

Lemma rint_abs_nonneg (m : positive) (e : Z) : 0 <= rint_abs m e.
Proof.
  unfold rint_abs. destruct (Z.leb_spec 0 e).
  - apply Z.mul_nonneg_nonneg; [lia | apply Z.pow_nonneg; lia].
  - apply round_half_even_nonneg. lia.
Qed.

(** At any scale [2^(-E)] finer than the value and than the integers, the
    value is at least its rounding minus one half. *)
Lemma rint_abs_half (m : positive) (e E : Z) :
  E <= e -> E <= 0 ->
  (2 * rint_abs m e - 1) * 2 ^ (- E) <= 2 * (Zpos m * 2 ^ (e - E)).
Proof.
  intros H1 H2. unfold rint_abs. destruct (Z.leb_spec 0 e) as [He|He].
  - replace (e - E) with (e + - E) by lia. rewrite Z.pow_add_r by lia.
    assert (0 < 2 ^ (- E)) by (apply Z.pow_pos_nonneg; lia).
    assert (0 <= 2 ^ e) by (apply Z.pow_nonneg; lia). nia.
  - pose proof (round_half_even_half (Zpos m) (- e) ltac:(lia)) as Hh.
    replace (- E) with (- e + (e - E)) by lia. rewrite Z.pow_add_r by lia.
    assert (0 < 2 ^ (e - E)) by (apply Z.pow_pos_nonneg; lia).
    assert (0 < 2 ^ (- e)) by (apply Z.pow_pos_nonneg; lia). nia.
Qed.

Lemma rint_Z_finite (s : bool) (m : positive) (e : Z) :
  rint_Z (S754_finite s m e) = Some (cond_Zopp s (rint_abs m e)).
Proof. reflexivity. Qed.

(** A value that rounds beyond the [int16] range is at least 32768 - 1/2
    away from zero, on the side of its sign. *)
Lemma beyond_int16_abs (s : bool) (m : positive) (e n : Z) :
  in_int16 (cond_Zopp s (rint_abs m e)) = false ->
  in_int16 n = true ->
  1 <= 2 * rint_abs m e - 1 - 2 * cond_Zopp s n.
Proof.
  unfold in_int16, int16_min, int16_max. intros Hz Hn.
  pose proof (rint_abs_nonneg m e).
  apply andb_true_iff in Hn. destruct Hn as [N1 N2].
  apply Z.leb_le in N1, N2. apply andb_false_iff in Hz.
  destruct s; unfold cond_Zopp in *; destruct Hz as [Hz|Hz];
    (apply Z.leb_gt in Hz); lia.
Qed.

Lemma binary_normalize_large (M E : Z) :
  E <= 0 -> 2 ^ (- E) <= 2 * Z.abs M ->
  at_least_half (SFabs (binary_normalize 53 1024 M E false)).
Proof.
  intros HE HM.
  assert (Hp : 0 < 2 ^ (- E)) by (apply Z.pow_pos_nonneg; lia).
  assert (Hlarge : forall s p, 2 ^ (- E) <= 2 * Zpos p ->
            at_least_half (SFabs (binary_round 53 1024 s p E))).
  { intros s p Hle.
    assert (HD : 0 <= Zpos (digits2_pos p) + E).
    { pose proof (Z.log2_double (Zpos p) ltac:(lia)) as Hd.
      apply Z.log2_le_pow2 in Hle; [|lia].
      rewrite digits2_log2. lia. }
    pose proof (binary_round_large 53 1024 ltac:(lia) s p E) as H.
    cbv zeta in H. rewrite emin64 in H. specialize (H ltac:(lia)).
    destruct (binary_round 53 1024 s p E) as [| | |s' m' e'];
      try contradiction; simpl; [exact I|].
    destruct H as [_ H]. unfold fexp in H. lia. }
  destruct M as [|p|p]; simpl binary_normalize.
  - simpl in HM. lia.
  - apply Hlarge. exact HM.
  - apply Hlarge. exact HM.
Qed.

(** For a [float32] value [d] that rounds to an integer outside the
    [int16] range, [|d - n| >= 1/2] in [float64] for every [int16] [n]. *)
Lemma sub64_beyond_int16 (s : bool) (m : positive) (e n : Z) :
  is_float32 (S754_finite s m e) ->
  in_int16 (cond_Zopp s (rint_abs m e)) = false ->
  in_int16 n = true ->
  at_least_half (SFabs (sub64 (to64 (S754_finite s m e)) (of_Z64 n))).
Proof.
  intros Hf Hz Hn.
  destruct (to64_exact s m e Hf) as (mz & fe & -> & Hfe & Hle & Emz).
  destruct (Z.eq_dec n 0) as [->|Hn0].
  - (* n = 0: the difference is d itself *)
    change (of_Z64 0) with (S754_zero false). simpl.
    pose proof (beyond_int16_abs s m e 0 Hz eq_refl) as Hb.
    replace (cond_Zopp s 0) with 0 in Hb by (destruct s; reflexivity).
    pose proof (rint_abs_half m e (Z.min e 0) ltac:(lia) ltac:(lia)) as Hh.
    destruct (Z.le_gt_cases 0 e) as [He|He];
      [pose proof (Pos2Z.is_pos (digits2_pos m)); lia|].
    replace (Z.min e 0) with e in Hh by lia.
    rewrite Z.sub_diag in Hh. change (2 ^ 0) with 1 in Hh.
    assert (Hp : 0 < 2 ^ (- e)) by (apply Z.pow_pos_nonneg; lia).
    assert (Hle2 : 2 ^ (- e) <= 2 * Zpos m) by nia.
    apply Z.log2_le_pow2 in Hle2; [|lia].
    pose proof (Z.log2_double (Zpos m) ltac:(lia)) as Hd.
    rewrite digits2_log2 in Hfe. lia.
  - destruct (of_Z64_exact n Hn Hn0) as (my & fy & -> & Hfy & Emy).
    unfold sub64, SFsub. set (E := Z.min fe fy).
    destruct (shl_align_spec mz fe E) as [_ Ea].
    destruct (shl_align_spec my fy E) as [_ Eb].
    replace (Z.min fe E) with E in Ea by lia.
    replace (Z.min fy E) with E in Eb by lia.
    apply binary_normalize_large; [lia|].
    rewrite Ea, Eb, Emz, Emy.
    rewrite <- !Z.mul_assoc, <- !Z.pow_add_r by lia.
    replace (e - fe + (fe - E)) with (e - E) by lia.
    replace (- fy + (fy - E)) with (- E) by lia.
    pose proof (rint_abs_half m e E ltac:(lia) ltac:(lia)) as Hh.
    pose proof (beyond_int16_abs s m e n Hz Hn) as Hb.
    assert (Hp : 0 < 2 ^ (- E)) by (apply Z.pow_pos_nonneg; lia).
    set (P := 2 ^ (- E)) in *. set (A := Zpos m * 2 ^ (e - E)) in *.
    set (z0 := rint_abs m e) in *.
    assert (Hsign : cond_Zopp (n <? 0) (Z.abs n * P) = n * P).
    { destruct (Z.ltb_spec n 0); simpl; nia. }
    rewrite Hsign.
    destruct s; unfold cond_Zopp in *; nia.
Qed.

Lemma isclose_beyond_int16 (d : float) (n z : Z) :
  is_float32 d -> rint_Z d = Some z -> in_int16 z = false ->
  in_int16 n = true -> isclose d n = false.
Proof.
  intros Hf Hr Hz Hn. destruct d as [s|s| |s m e]; try discriminate.
  - injection Hr as <-. discriminate.
  - rewrite rint_Z_finite in Hr. injection Hr as <-.
    unfold isclose. apply leb_below_half.
    + apply tolerance_below_half, Hn.
    + apply (sub64_beyond_int16 s m e n Hf Hz Hn).
Qed.

Lemma cycle_diff_is_float32 (x1 x2 : float) : is_float32 (cycle_diff x1 x2).
Proof. apply to32_is_float32. Qed.

Lemma astype_int16_range (pf : platform) (x : float) :
  (forall y, in_int16 (cast_out_of_range pf y) = true) ->
  in_int16 (astype_int16 pf x) = true.
Proof.
  intros Hc. unfold astype_int16.
  destruct (trunc_Z x) as [z|]; [|apply Hc].
  destruct (in_int16 z) eqn:E; [exact E | apply Hc].
Qed.

Lemma wrap_16_range (z : Z) : in_int16 (wrap 16 z) = true.
Proof.
  unfold in_int16, int16_min, int16_max, wrap.
  change (2 ^ (16 - 1)) with 32768. change (2 ^ 16) with 65536.
  pose proof (Z.mod_pos_bound (z + 32768) 65536 ltac:(lia)).
  apply andb_true_iff. split; apply Z.leb_le; lia.
Qed.

Lemma cast_wrapping_range (x : float) : in_int16 (cast_wrapping x) = true.
Proof.
  unfold cast_wrapping. destruct (trunc_Z x) as [z|]; [|reflexivity].
  destruct (_ && _); [apply wrap_16_range | reflexivity].
Qed.

(** C9 (as amended).  The rounded differences are stored as [int16]
    values.  On inputs that pass the shape checks, whatever [int16] the
    machine stores for an out-of-range conversion, an element whose cycle
    difference rounds to an integer outside [-32768, 32767] fails the
    tolerance test against the stored value: the call raises the
    [AssertionError] of line 75, before the sort of line 81. *)
Theorem beyond_int16_rejected (pf : platform) (b1 b2 : ndarray float) :
  (forall y, in_int16 (cast_out_of_range pf y) = true) ->
  shape b1 = shape b2 -> ndim b1 = 2%nat -> nth 1 (shape b1) O = 11%nat ->
  Exists (fun x => beyond_int16 (fst x) (snd x))
         (combine (data b1) (data b2)) ->
  Forall (fun x => in_int16 (astype_int16 pf (rint32 (cycle_diff (fst x) (snd x))))
                   = true)
         (combine (data b1) (data b2)) /\
  pairwise_unwrapped_diff pf b1 b2 = Raise (AssertionError msg_cycles).
Proof.
  intros Hc Hs Hd Hn Hex. split.
  - apply Forall_forall. intros x _. apply astype_int16_range, Hc.
  - rewrite (pairwise_unwrapped_diff_accepted pf b1 b2 Hs Hd Hn).
    replace (forallb _ _) with false; [reflexivity|].
    symmetry. apply forallb_false_Exists.
    eapply Exists_impl; [|exact Hex].
    intros [x1 x2] (z & Hr & Hz). unfold cycle_ok. simpl fst in *.
    simpl snd in *.
    apply (isclose_beyond_int16 _ _ z);
      [apply cycle_diff_is_float32 | exact Hr | exact Hz |].
    apply astype_int16_range, Hc.
Qed.

Lemma beyond_int16_rejected_witness :
  Forall (fun x => in_int16 (astype_int16 legacy
                               (rint32 (cycle_diff (fst x) (snd x)))) = true)
         (combine (data (zeros64 [1; 11]%nat)) (data far_ahead)) /\
  pairwise_unwrapped_diff legacy (zeros64 [1; 11]%nat) far_ahead
  = Raise (AssertionError msg_cycles).
Proof.
  apply beyond_int16_rejected.
  - exact cast_wrapping_range.
  - reflexivity.
  - reflexivity.
  - reflexivity.
  - apply Exists_cons_hd. exists 40000. split; vm_compute; reflexivity.
Defined.

(** C9 as stated fails.  With [b1 = 0] and [b2[0, 0] = 40000 * 2 * pi] the
    inputs pass the shape checks and the first cycle difference is 40000;
    it is stored as [40000 - 2^16 = -25536], but the tolerance check then
    fails and the call raises [AssertionError]: no value reaches the sort. *)
Lemma wrapped_difference_never_sorted :
  shape (zeros64 [1; 11]%nat) = shape far_ahead /\
  ndim far_ahead = 2%nat /\ nth 1 (shape far_ahead) O = 11%nat /\
  rint_Z (cycle_diff zero (mul64 (of_Z64 40000) two_pi)) = Some 40000 /\
  astype_int16 legacy (rint32 (cycle_diff zero (mul64 (of_Z64 40000) two_pi)))
  = wrap 16 40000 /\
  wrap 16 40000 = -25536 /\
  pairwise_unwrapped_diff legacy (zeros64 [1; 11]%nat) far_ahead
  = Raise (AssertionError msg_cycles).
Proof.
  repeat split; vm_compute; reflexivity.
Qed.

(** * Further properties *)

(** ** find_common_points: errors, indices and order *)

Lemma fold_min_le (l : list Z) (a : Z) :
  fold_left Z.min l a <= a /\ Forall (fun x => fold_left Z.min l a <= x) l.
Proof.
  revert a. induction l as [|x l IH]; intros a; simpl.
  - split; [lia | constructor].
  - destruct (IH (Z.min a x)) as [H1 H2]. split; [lia|].
    constructor; [lia | exact H2].
Qed.

Lemma amin_le (l : list Z) (lo : Z) :
  NumPy.amin l = Ok lo -> Forall (fun x => lo <= x) l.
Proof.
  destruct l as [|x l]; simpl; [discriminate|]. intros H. injection H as <-.
  destruct (fold_min_le l x). constructor; assumption.
Qed.

Lemma amin_nonempty (c : cloud) :
  c <> [] -> exists lo, NumPy.amin (elements c) = Ok lo.
Proof.
  destruct c as [|p c]; [congruence|]. intros _.
  change (elements (p :: c)) with (fst p :: (snd p :: elements c)).
  simpl. eauto.
Qed.

Lemma elements_In (c : cloud) (p : point) :
  In p c -> In (fst p) (elements c) /\ In (snd p) (elements c).
Proof.
  intros H. unfold elements. split; apply in_flat_map; exists p; simpl; auto.
Qed.

(** Line 29 on a negative coordinate. *)
Theorem find_common_points_negative (w : Z) (c1 c2 : cloud) :
  c1 <> [] -> c2 <> [] ->
  Exists (fun p => fst p < 0 \/ snd p < 0) (c1 ++ c2) ->
  find_common_points w c1 c2 = Raise (AssertionError "").
Proof.
  intros Hne1 Hne2 Hex. unfold find_common_points.
  destruct (amin_nonempty c1 Hne1) as [lo1 E1].
  destruct (amin_nonempty c2 Hne2) as [lo2 E2].
  rewrite E1, E2. simpl bind.
  apply amin_le in E1, E2. rewrite Forall_forall in E1, E2.
  replace (Z.min lo1 lo2 >=? 0) with false; [reflexivity|].
  symmetry. rewrite Z.geb_leb. apply Z.leb_gt.
  apply Exists_exists in Hex. destruct Hex as (p & Hin & Hneg).
  apply in_app_or in Hin.
  destruct Hin as [Hin|Hin]; apply elements_In in Hin; destruct Hin as [Hx Hy];
    [apply E1 in Hx; apply E1 in Hy | apply E2 in Hx; apply E2 in Hy]; lia.
Qed.

Lemma find_common_points_negative_witness :
  find_common_points 64 [(0, 0); (1, -2)] [(1, 2)] = Raise (AssertionError "").
Proof.
  apply find_common_points_negative.
  - discriminate.
  - discriminate.
  - apply Exists_cons_tl, Exists_cons_hd. right. simpl. lia.
Defined.

(** [np.min] on an empty cloud. *)
Theorem find_common_points_empty (w : Z) (c1 c2 : cloud) :
  c1 = [] \/ c2 = [] ->
  find_common_points w c1 c2 = Raise (ValueError NumPy.zero_size).
Proof.
  intros H. unfold find_common_points.
  destruct c1 as [|p c1]; [reflexivity|].
  destruct H as [H | ->]; [discriminate|].
  destruct (amin_nonempty (p :: c1) ltac:(discriminate)) as [lo1 ->].
  reflexivity.
Qed.

Lemma find_common_points_empty_witness :
  find_common_points 64 [(1, 2)] [] = Raise (ValueError NumPy.zero_size).
Proof.
  apply find_common_points_empty. right. reflexivity.
Defined.

Lemma index_of_lt (v : Z) (l : list Z) :
  In v l -> (NumPy.index_of v l < length l)%nat.
Proof.
  intros H. apply nth_error_Some. rewrite (index_of_nth v l H). discriminate.
Qed.

Lemma index_of_first (v : Z) (l : list Z) (i : nat) :
  (i < NumPy.index_of v l)%nat -> nth_error l i <> Some v.
Proof.
  revert i. induction l as [|x l IH]; intros i; simpl; [lia|].
  destruct (Z.eqb_spec x v) as [->|Hne]; [lia|].
  destruct i as [|i]; simpl; [congruence|]. intros H. apply IH. lia.
Qed.

Lemma index_of_injective (l : list Z) (u v : Z) :
  In u l -> In v l -> NumPy.index_of u l = NumPy.index_of v l -> u = v.
Proof.
  intros Hu Hv E. apply index_of_nth in Hu, Hv. rewrite E in Hu. congruence.
Qed.

(** What a returning call has computed: the two arrays of encoded keys, for
    some stride. *)
Lemma find_common_points_Ok (w : Z) (c1 c2 : cloud) (ii jj : list nat) :
  find_common_points w c1 c2 = Ok (ii, jj) ->
  exists m,
    (ii, jj) = snd (NumPy.intersect1d (map (encode w m) c1)
                                      (map (encode w m) c2)).
Proof.
  unfold find_common_points. intros H.
  destruct (NumPy.amin (elements c1)); cbn [bind] in H; [|discriminate].
  destruct (NumPy.amin (elements c2)); cbn [bind] in H; [|discriminate].
  destruct (_ >=? 0); [|discriminate].
  destruct (NumPy.amax (map snd c1)) as [z1|]; cbn [bind] in H; [|discriminate].
  destruct (NumPy.amax (map snd c2)) as [z2|]; cbn [bind] in H; [|discriminate].
  exists (wrap w (1 + Z.max z1 z2)). congruence.
Qed.

Lemma index_list_valid (ar : list Z) (common : list Z) :
  incl common ar -> NoDup common ->
  Forall (fun i => (i < length ar)%nat)
         (map (fun v => NumPy.index_of v ar) common) /\
  NoDup (map (fun v => NumPy.index_of v ar) common).
Proof.
  intros Hin Hnd. split.
  - apply Forall_forall. intros i Hi. apply in_map_iff in Hi.
    destruct Hi as (v & <- & Hv). apply index_of_lt, Hin, Hv.
  - apply NoDup_map_NoDup_ForallPairs; [|exact Hnd].
    intros u v Hu Hv E. apply (index_of_injective ar); auto.
Qed.

(** Whatever the inputs, a returning call gives index sequences of equal
    length, in range, and without a repeated index. *)
Theorem find_common_points_indices (w : Z) (c1 c2 : cloud) (ii jj : list nat) :
  find_common_points w c1 c2 = Ok (ii, jj) ->
  length ii = length jj /\
  Forall (fun i => (i < length c1)%nat) ii /\
  Forall (fun j => (j < length c2)%nat) jj /\
  NoDup ii /\ NoDup jj.
Proof.
  intros H. apply find_common_points_Ok in H. destruct H as [m H].
  destruct (intersect1d_common (map (encode w m) c1) (map (encode w m) c2))
    as [Hnd Hin].
  simpl in *. set (common := filter _ _) in *. injection H as -> ->.
  destruct (index_list_valid (map (encode w m) c1) common) as [V1 N1];
    [intros v Hv; apply Hin, Hv | exact Hnd |].
  destruct (index_list_valid (map (encode w m) c2) common) as [V2 N2];
    [intros v Hv; apply Hin, Hv | exact Hnd |].
  rewrite length_map in V1, V2. rewrite !length_map. auto.
Qed.

Lemma find_common_points_indices_witness :
  length [1; 2]%nat = length [0; 2]%nat /\
  Forall (fun i => (i < length spec_cloud1)%nat) [1; 2]%nat /\
  Forall (fun j => (j < length spec_cloud2)%nat) [0; 2]%nat /\
  NoDup [1; 2]%nat /\ NoDup [0; 2]%nat.
Proof.
  apply (find_common_points_indices 64). vm_compute. reflexivity.
Defined.

(** Each returned index is the first row of its cloud that holds the
    point. *)
Theorem find_common_points_first (w : Z) (c1 c2 : cloud) (ii jj : list nat) :
  find_common_points w c1 c2 = Ok (ii, jj) ->
  (forall i i', In i ii -> (i' < i)%nat -> nth_error c1 i' <> nth_error c1 i) /\
  (forall j j', In j jj -> (j' < j)%nat -> nth_error c2 j' <> nth_error c2 j).
Proof.
  intros H. apply find_common_points_Ok in H. destruct H as [m H].
  destruct (intersect1d_common (map (encode w m) c1) (map (encode w m) c2))
    as [_ Hin].
  simpl in *. set (common := filter _ _) in *. injection H as -> ->.
  assert (Hfirst : forall (c : cloud) i i',
            In i (map (fun v => NumPy.index_of v (map (encode w m) c)) common) ->
            incl common (map (encode w m) c) ->
            (i' < i)%nat -> nth_error c i' <> nth_error c i).
  { intros c i i' Hi Hc Hlt E. apply in_map_iff in Hi.
    destruct Hi as (v & <- & Hv).
    pose proof (index_of_nth v _ (Hc v Hv)) as Hn.
    apply (index_of_first v (map (encode w m) c) i' Hlt).
    rewrite nth_error_map in *. rewrite E. exact Hn. }
  split; intros i i' Hi Hlt; apply (Hfirst _ i i' Hi); try assumption;
    intros v Hv; apply Hin, Hv.
Qed.

Lemma find_common_points_first_witness :
  (forall i i', In i [0%nat] -> (i' < i)%nat ->
                nth_error repeated_cloud1 i' <> nth_error repeated_cloud1 i) /\
  (forall j j', In j [1%nat] -> (j' < j)%nat ->
                nth_error repeated_cloud2 j' <> nth_error repeated_cloud2 j).
Proof.
  apply (find_common_points_first 64). vm_compute. reflexivity.
Defined.

Lemma sorted_lt_filter (f : Z -> bool) (l : list Z) :
  StronglySorted Z.lt l -> StronglySorted Z.lt (filter f l).
Proof.
  induction 1 as [|x l Hs IH Hx]; simpl; [constructor|].
  destruct (f x); [|exact IH]. constructor; [exact IH|].
  rewrite Forall_forall in *. intros y Hy. apply filter_In in Hy.
  apply Hx, Hy.
Qed.

(** Two strictly increasing lists with the same elements are equal. *)
Lemma sorted_lt_unique (l1 l2 : list Z) :
  StronglySorted Z.lt l1 -> StronglySorted Z.lt l2 ->
  (forall x, In x l1 <-> In x l2) -> l1 = l2.
Proof.
  intros H1. revert l2.
  induction H1 as [|x l1 Hs1 IH Hx]; intros l2 H2 Hin.
  - destruct l2 as [|y l2]; [reflexivity|].
    exfalso. apply (proj2 (Hin y)). left. reflexivity.
  - destruct H2 as [|y l2 Hs2 Hy].
    + exfalso. apply (proj1 (Hin x)). left. reflexivity.
    + rewrite Forall_forall in Hx, Hy.
      assert (x = y).
      { destruct (proj1 (Hin x) (or_introl eq_refl)) as [E|Hx2]; [auto|].
        destruct (proj2 (Hin y) (or_introl eq_refl)) as [E|Hy1]; [auto|].
        apply Hy in Hx2. apply Hx in Hy1. lia. }
      subst y. f_equal. apply IH; [assumption|].
      intros z. split; intros Hz.
      * destruct (proj1 (Hin z) (or_intror Hz)) as [E|H]; [|exact H].
        apply Hx in Hz. lia.
      * destruct (proj2 (Hin z) (or_intror Hz)) as [E|H]; [|exact H].
        apply Hy in Hz. lia.
Qed.

Lemma intersect1d_sorted (ar1 ar2 : list Z) :
  StronglySorted Z.lt (fst (NumPy.intersect1d ar1 ar2)).
Proof. simpl. apply sorted_lt_filter, unique_sorted. Qed.

(** [np.intersect1d] with its arguments exchanged. *)
Lemma intersect1d_exchange (ar1 ar2 : list Z) :
  snd (NumPy.intersect1d ar2 ar1)
  = (snd (snd (NumPy.intersect1d ar1 ar2)),
     fst (snd (NumPy.intersect1d ar1 ar2))).
Proof.
  assert (E : fst (NumPy.intersect1d ar2 ar1) = fst (NumPy.intersect1d ar1 ar2)).
  { apply sorted_lt_unique; try apply intersect1d_sorted.
    intros x. rewrite (proj2 (intersect1d_common ar2 ar1) x).
    rewrite (proj2 (intersect1d_common ar1 ar2) x). tauto. }
  unfold NumPy.intersect1d in *. cbn [fst snd] in *. rewrite E. reflexivity.
Qed.

Lemma amin_Raise (l : list Z) (e : exn) :
  NumPy.amin l = Raise e -> e = ValueError NumPy.zero_size.
Proof. destruct l; simpl; congruence. Qed.

Lemma amax_Raise (l : list Z) (e : exn) :
  NumPy.amax l = Raise e -> e = ValueError NumPy.zero_size.
Proof. destruct l; simpl; congruence. Qed.

(** Exchanging the two clouds exchanges the two index sequences, and
    changes nothing else: not the pairs, their order, or the error. *)
Theorem find_common_points_exchange (w : Z) (c1 c2 : cloud) :
  find_common_points w c2 c1 = exchange (find_common_points w c1 c2).
Proof.
  unfold find_common_points.
  destruct (NumPy.amin (elements c1)) as [lo1|e1] eqn:E1;
    destruct (NumPy.amin (elements c2)) as [lo2|e2] eqn:E2; cbn [bind];
    try (apply amin_Raise in E1; subst e1);
    try (apply amin_Raise in E2; subst e2); try reflexivity.
  rewrite (Z.min_comm lo2 lo1).
  destruct (Z.min lo1 lo2 >=? 0); [|reflexivity].
  destruct (NumPy.amax (map snd c1)) as [hi1|e1] eqn:A1;
    destruct (NumPy.amax (map snd c2)) as [hi2|e2] eqn:A2; cbn [bind];
    try (apply amax_Raise in A1; subst e1);
    try (apply amax_Raise in A2; subst e2); try reflexivity.
  rewrite (Z.max_comm hi2 hi1). cbv zeta. unfold exchange.
  rewrite intersect1d_exchange.
  destruct (NumPy.intersect1d _ _) as [common [ii jj]]. reflexivity.
Qed.

Lemma StronglySorted_map_in {A B : Type} (R : A -> A -> Prop)
      (R' : B -> B -> Prop) (f : A -> B) (l : list A) :
  StronglySorted R l ->
  (forall x y, In x l -> In y l -> R x y -> R' (f x) (f y)) ->
  StronglySorted R' (map f l).
Proof.
  induction 1 as [|x l Hs IH Hx]; intros Hf; simpl; constructor.
  - apply IH. intros a b Ha Hb. apply Hf; right; assumption.
  - rewrite Forall_forall in *. intros y Hy. apply in_map_iff in Hy.
    destruct Hy as (z & <- & Hz). apply Hf; [left; reflexivity | right; exact Hz
                                            | apply Hx, Hz].
Qed.

(** Without overflow the order of the keys is the order of the points. *)
Lemma key_lt_lex (w : Z) (c1 c2 : cloud) (p q : point) :
  nonneg c1 -> nonneg c2 -> fits w c1 c2 ->
  In p (c1 ++ c2) -> In q (c1 ++ c2) ->
  key c1 c2 p < key c1 c2 q -> lex_lt p q.
Proof.
  intros Hn1 Hn2 Hfit Hp Hq Hlt. unfold key in Hlt.
  destruct (point_bounds w c1 c2 Hn1 Hn2 Hfit p Hp) as (_ & Hyp & _).
  destruct (point_bounds w c1 c2 Hn1 Hn2 Hfit q Hq) as (_ & Hyq & _).
  unfold lex_lt.
  destruct (Z.lt_trichotomy (fst p) (fst q)) as [H|[H|H]].
  - left. exact H.
  - right. rewrite H in Hlt. split; [exact H | lia].
  - exfalso. nia.
Qed.

(** Without overflow the returned pairs come in strictly increasing order
    of the points, first coordinate first, and both index sequences pick
    the same points. *)
Theorem find_common_points_sorted (w : Z) (c1 c2 : cloud) :
  0 < w -> c1 <> [] -> c2 <> [] -> nonneg c1 -> nonneg c2 -> fits w c1 c2 ->
  exists ii jj,
    find_common_points w c1 c2 = Ok (ii, jj) /\
    StronglySorted lex_lt (rows_at c1 ii) /\
    rows_at c2 jj = rows_at c1 ii.
Proof.
  intros Hw Hne1 Hne2 Hn1 Hn2 Hfit.
  rewrite (find_common_points_eq w c1 c2 Hw Hn1 Hn2 Hfit Hne1 Hne2).
  pose proof (intersect1d_sorted (map (key c1 c2) c1) (map (key c1 c2) c2))
    as Hs.
  destruct (intersect1d_common (map (key c1 c2) c1) (map (key c1 c2) c2))
    as [_ Hin].
  simpl in *. set (common := filter _ _) in *.
  eexists _, _. split; [reflexivity|].
  assert (Hpt : forall v, In v common ->
            exists p, key c1 c2 p = v /\ In p (c1 ++ c2) /\
              nth (NumPy.index_of v (map (key c1 c2) c1)) c1 (0, 0) = p /\
              nth (NumPy.index_of v (map (key c1 c2) c2)) c2 (0, 0) = p).
  { intros v Hv. destruct (proj1 (Hin v) Hv) as [H1 H2].
    destruct (common_value_point w c1 c2 Hn1 Hn2 Hfit v H1 H2)
      as (p & K & E1 & E2).
    exists p. split; [exact K|].
    split; [apply in_or_app; left; eapply nth_error_In; exact E1|].
    split; apply nth_error_nth; assumption. }
  unfold rows_at. rewrite !map_map. split.
  - apply (StronglySorted_map_in Z.lt); [exact Hs|].
    intros u v Hu Hv Hlt.
    destruct (Hpt u Hu) as (p & Kp & Ip & -> & _).
    destruct (Hpt v Hv) as (q & Kq & Iq & -> & _).
    apply (key_lt_lex w c1 c2); try assumption. lia.
  - apply map_ext_in. intros v Hv.
    destruct (Hpt v Hv) as (p & _ & _ & -> & ->). reflexivity.
Qed.

Lemma find_common_points_sorted_witness :
  exists ii jj,
    find_common_points 64 [(3, 3); (1, 2); (0, 7)] [(0, 7); (3, 3); (1, 2)]
    = Ok (ii, jj) /\
    StronglySorted lex_lt (rows_at [(3, 3); (1, 2); (0, 7)] ii) /\
    rows_at [(0, 7); (3, 3); (1, 2)] jj = rows_at [(3, 3); (1, 2); (0, 7)] ii.
Proof.
  apply find_common_points_sorted.
  - lia.
  - discriminate.
  - discriminate.
  - repeat constructor; simpl; lia.
  - repeat constructor; simpl; lia.
  - split; [vm_compute; reflexivity | repeat constructor; vm_compute; reflexivity].
Defined.

(** Without overflow, distinct points of the two clouds get distinct
    encoded keys (lines 31-33). *)
Theorem encode_injective (w : Z) (c1 c2 : cloud) (p q : point) :
  0 < w -> nonneg c1 -> nonneg c2 -> fits w c1 c2 ->
  In p (c1 ++ c2) -> In q (c1 ++ c2) -> p <> q ->
  encode w (wrap w (stride c1 c2)) p <> encode w (wrap w (stride c1 c2)) q.
Proof.
  intros Hw Hn1 Hn2 Hfit Hp Hq Hne E. apply Hne.
  rewrite !(encode_exact w c1 c2 Hw Hn1 Hn2 Hfit) in E by assumption.
  apply (key_injective w c1 c2 Hn1 Hn2 Hfit); assumption.
Qed.

Lemma encode_injective_witness :
  encode 64 (wrap 64 (stride spec_cloud1 spec_cloud2)) (1, 2)
  <> encode 64 (wrap 64 (stride spec_cloud1 spec_cloud2)) (5, 5).
Proof.
  apply (encode_injective 64 spec_cloud1 spec_cloud2).
  - lia.
  - repeat constructor; simpl; lia.
  - repeat constructor; simpl; lia.
  - split; [vm_compute; reflexivity | repeat constructor; vm_compute; reflexivity].
  - unfold spec_cloud1, spec_cloud2. simpl. tauto.
  - unfold spec_cloud1, spec_cloud2. simpl. tauto.
  - discriminate.
Defined.

(** ** pairwise_unwrapped_diff: which error *)

(** The three [ValueError]s of lines 55-65, in the order of the checks; no
    later line raises a [ValueError]. *)
Theorem pairwise_unwrapped_diff_ValueError (pf : platform)
        (b1 b2 : ndarray float) :
  (pairwise_unwrapped_diff pf b1 b2 = Raise (ValueError msg_shape) <->
   shape b1 <> shape b2) /\
  (pairwise_unwrapped_diff pf b1 b2 = Raise (ValueError msg_ndim) <->
   shape b1 = shape b2 /\ ndim b1 <> 2%nat) /\
  (pairwise_unwrapped_diff pf b1 b2 = Raise (ValueError msg_samples) <->
   shape b1 = shape b2 /\ ndim b1 = 2%nat /\ nth 1 (shape b1) O <> 11%nat) /\
  ((exists msg, pairwise_unwrapped_diff pf b1 b2 = Raise (ValueError msg)) <->
   shape b1 <> shape b2 \/ ndim b1 <> 2%nat \/ nth 1 (shape b1) O <> 11%nat).
Proof.
  destruct (list_eq_dec Nat.eq_dec (shape b1) (shape b2)) as [Hs|Hs].
  - destruct (Nat.eq_dec (ndim b1) 2) as [Hd|Hd].
    + destruct (Nat.eq_dec (nth 1 (shape b1) O) 11) as [Hn|Hn].
      * rewrite (pairwise_unwrapped_diff_accepted pf b1 b2 Hs Hd Hn).
        unfold gather_outcome.
        destruct (forallb _ _);
          [destruct (np_has_int pf); [destruct (_ && _)|]|];
          repeat split; try discriminate; try tauto;
          intros [msg H]; discriminate.
      * rewrite (sample_check_exact pf b1 b2 Hs Hd Hn).
        repeat split; try discriminate; try tauto; eauto.
    + assert (E : pairwise_unwrapped_diff pf b1 b2 = Raise (ValueError msg_ndim)).
      { unfold pairwise_unwrapped_diff.
        rewrite (proj2 (shape_eqb_eq _ _) Hs). simpl negb. cbv iota.
        apply Nat.eqb_neq in Hd. rewrite Hd. reflexivity. }
      rewrite E. repeat split; try discriminate; try tauto; eauto.
  - assert (E : pairwise_unwrapped_diff pf b1 b2 = Raise (ValueError msg_shape)).
    { unfold pairwise_unwrapped_diff.
      destruct (shape_eqb (shape b1) (shape b2)) eqn:E;
        [apply shape_eqb_eq in E; contradiction | reflexivity]. }
    rewrite E. repeat split; try discriminate; try tauto; eauto.
Qed.

(** ** pairwise_unwrapped_diff: NaN, infinities and whole cycles *)

Lemma cycle_diff_nan (x1 x2 : float) :
  x1 = S754_nan \/ x2 = S754_nan -> cycle_diff x1 x2 = S754_nan.
Proof.
  unfold cycle_diff, sub64. intros [-> | ->].
  - destruct x2; reflexivity.
  - reflexivity.
Qed.

Lemma isclose_nan (n : Z) : isclose S754_nan n = false.
Proof. reflexivity. Qed.

(** A NaN anywhere in either input fails the tolerance check, on every
    platform. *)
Theorem nan_rejected (pf : platform) (b1 b2 : ndarray float) :
  shape b1 = shape b2 -> ndim b1 = 2%nat -> nth 1 (shape b1) O = 11%nat ->
  Exists (fun x => fst x = S754_nan \/ snd x = S754_nan)
         (combine (data b1) (data b2)) ->
  pairwise_unwrapped_diff pf b1 b2 = Raise (AssertionError msg_cycles).
Proof.
  intros Hs Hd Hn Hex.
  rewrite (pairwise_unwrapped_diff_accepted pf b1 b2 Hs Hd Hn).
  replace (forallb _ _) with false; [reflexivity|].
  symmetry. apply forallb_false_Exists.
  eapply Exists_impl; [|exact Hex].
  intros [x1 x2] H. unfold cycle_ok. simpl fst in *. simpl snd in *.
  cbv zeta. rewrite (cycle_diff_nan _ _ H). apply isclose_nan.
Qed.

Lemma of_Z64_int16_finite (n : Z) :
  in_int16 n = true ->
  match of_Z64 n with
  | S754_zero _ | S754_finite _ _ _ => True
  | _ => False
  end.
Proof.
  intros Hn. destruct (Z.eq_dec n 0) as [->|Hn0]; [exact I|].
  destruct (of_Z64_exact n Hn Hn0) as (my & fy & -> & _). exact I.
Qed.

Lemma isclose_not_finite (d : float) (n : Z) :
  rint_Z d = None -> in_int16 n = true -> isclose d n = false.
Proof.
  intros Hd Hn. destruct d as [s|s| |s m e]; try discriminate.
  - unfold isclose. apply leb_below_half; [apply tolerance_below_half, Hn|].
    pose proof (of_Z64_int16_finite n Hn) as Hy. simpl to64. unfold sub64.
    destruct (of_Z64 n); try contradiction; exact I.
  - apply isclose_nan.
Qed.

(** A cycle difference that is infinite (or a NaN) in [float32] fails the
    tolerance check, whatever [int16] the conversion stores for it. *)
Theorem not_finite_rejected (pf : platform) (b1 b2 : ndarray float) :
  (forall y, in_int16 (cast_out_of_range pf y) = true) ->
  shape b1 = shape b2 -> ndim b1 = 2%nat -> nth 1 (shape b1) O = 11%nat ->
  Exists (fun x => rint_Z (cycle_diff (fst x) (snd x)) = None)
         (combine (data b1) (data b2)) ->
  pairwise_unwrapped_diff pf b1 b2 = Raise (AssertionError msg_cycles).
Proof.
  intros Hc Hs Hd Hn Hex.
  rewrite (pairwise_unwrapped_diff_accepted pf b1 b2 Hs Hd Hn).
  replace (forallb _ _) with false; [reflexivity|].
  symmetry. apply forallb_false_Exists.
  eapply Exists_impl; [|exact Hex].
  intros [x1 x2] H. unfold cycle_ok. simpl fst in *. simpl snd in *.
  apply isclose_not_finite; [exact H | apply astype_int16_range, Hc].
Qed.

Lemma nan_rejected_witness :
  pairwise_unwrapped_diff modern with_nan (zeros64 [1; 11]%nat)
  = Raise (AssertionError msg_cycles).
Proof.
  apply nan_rejected; try reflexivity.
  apply Exists_cons_hd. left. reflexivity.
Defined.

Lemma not_finite_rejected_witness :
  pairwise_unwrapped_diff legacy (zeros64 [1; 11]%nat) with_inf
  = Raise (AssertionError msg_cycles).
Proof.
  apply not_finite_rejected; try reflexivity.
  - exact cast_wrapping_range.
  - apply Exists_cons_hd. vm_compute. reflexivity.
Defined.

(** Lines 71-75 recover every number of whole cycles up to 1000, checked
    value by value. *)
Lemma exact_cycle_checked (k : Z) :
  -1000 <= k <= 1000 -> exact_cycle k = true.
Proof.
  intros H.
  assert (Hin : In k (Z_range (-1000) (Z.to_nat 2001)))
    by (apply Z_range_In; rewrite Z2Nat.id; lia).
  clear H. revert k Hin. apply forallb_forall. vm_compute. reflexivity.
Qed.

Lemma whole_cycles_stored (pf : platform) (k : Z) (x1 x2 : float) :
  whole_cycles k x1 x2 ->
  astype_int16 pf (rint32 (cycle_diff x1 x2)) = k /\ cycle_ok pf x1 x2 = true.
Proof.
  intros [Hk Hx]. pose proof (exact_cycle_checked k Hk) as He.
  assert (Hr : in_int16 k = true).
  { unfold in_int16, int16_min, int16_max.
    apply andb_true_iff. split; apply Z.leb_le; lia. }
  unfold exact_cycle in He. unfold cycle_ok, astype_int16, cycle_diff.
  rewrite Hx. cbv zeta in *.
  destruct (trunc_Z _) as [z|]; [|discriminate].
  apply andb_true_iff in He. destruct He as [Hz Hc].
  apply Z.eqb_eq in Hz. subst z. rewrite Hr. split; [reflexivity | exact Hc].
Qed.

(** When every element of [b2 - b1] is the [float64] product of an integer
    [k] with [|k| <= 1000] and [2 * np.pi], line 72 stores exactly these [k]
    and the tolerance check of line 75 passes. *)
Theorem whole_cycles_pass (pf : platform) (b1 b2 : ndarray float)
        (ks : list Z) :
  shape b1 = shape b2 -> ndim b1 = 2%nat -> nth 1 (shape b1) O = 11%nat ->
  Forall2 (fun k x => whole_cycles k (fst x) (snd x)) ks
          (combine (data b1) (data b2)) ->
  stored_cycles pf b1 b2 = ks /\
  pairwise_unwrapped_diff pf b1 b2 <> Raise (AssertionError msg_cycles).
Proof.
  intros Hs Hd Hn Hall.
  rewrite (pairwise_unwrapped_diff_accepted pf b1 b2 Hs Hd Hn).
  unfold stored_cycles.
  induction Hall as [|k [x1 x2] ks l Hk Hall [IH1 IH2]]; simpl.
  - split; [reflexivity|]. unfold gather_outcome.
    destruct (np_has_int pf); [destruct (_ && _)|]; discriminate.
  - destruct (whole_cycles_stored pf k x1 x2 Hk) as [-> ->].
    split; [f_equal; exact IH1 | exact IH2].
Qed.

Lemma whole_cycles_pass_witness :
  stored_cycles legacy (zeros64 [1; 11]%nat) one_cycle_ahead = repeat 1 11 /\
  pairwise_unwrapped_diff legacy (zeros64 [1; 11]%nat) one_cycle_ahead
  <> Raise (AssertionError msg_cycles).
Proof.
  apply whole_cycles_pass; try reflexivity.
  repeat constructor; lia.
Defined.

(** ** l2_min: the dense branch, the solver calls and the warning *)

Section SolverCalls.

Variable lsq_dense : list (list float) -> list float -> result (list float).
Variable lsq_sparse : csr_matrix -> list float -> result (list float).



(** The warning is logged exactly when the matrix stores nothing and a
    logger was given; then it is the only event. *)
Theorem l2_min_warning (amat : matrix) (b : list float) (log : option logger)
        (msg : string) :
  In (Warning msg) (fst (l2_min lsq_dense lsq_sparse amat b log)) <->
  np_size amat = 0%nat /\ log <> None /\
  msg = "A is empty; returning all zeros".
Proof.
  unfold l2_min. destruct (Nat.eqb_spec (np_size amat) 0) as [Hs|Hs].
  - destruct log as [l|]; cbn [fst In]; split.
    + intros [H|[]]. injection H as <-. repeat split; [exact Hs | discriminate].
    + intros (_ & _ & ->). left. reflexivity.
    + intros [].
    + intros (_ & H & _). congruence.
  - destruct (negb _); cbn [fst].
    + split; [intros [] | tauto].
    + split; [|tauto]. destruct amat; cbn [fst In]; intros [H|[]]; discriminate.
Qed.

(** A sparse matrix that stores no value counts as empty whatever its
    shape: no solver is reached, the right-hand side is not looked at, and
    the returned residual is the zero vector. *)
Theorem l2_min_sparse_unstored (s : csr_matrix) (b : list float)
        (log : option logger) :
  csr_entries s = [] ->
  snd (l2_min lsq_dense lsq_sparse (Sparse s) b log)
  = Ok (np_zeros (snd (csr_shape s)), FloatArray (np_zeros (fst (csr_shape s))))
  /\ ~ In SolveSparse (fst (l2_min lsq_dense lsq_sparse (Sparse s) b log))
  /\ ~ In SolveDense (fst (l2_min lsq_dense lsq_sparse (Sparse s) b log)).
Proof.
  intros Hs.
  rewrite (l2_min_fast_path lsq_dense lsq_sparse (Sparse s) b log)
    by (simpl; rewrite Hs; reflexivity).
  split; [reflexivity|]. destruct log; simpl; intuition discriminate.
Qed.

End SolverCalls.



Lemma l2_min_sparse_unstored_witness :
  snd (l2_min no_lsq_dense no_lsq_sparse (Sparse unstored_csr) [one; one]
              (Some Logger))
  = Ok (np_zeros 2, FloatArray (np_zeros 2)) /\
  ~ In SolveSparse
       (fst (l2_min no_lsq_dense no_lsq_sparse (Sparse unstored_csr) [one; one]
                    (Some Logger))) /\
  ~ In SolveDense
       (fst (l2_min no_lsq_dense no_lsq_sparse (Sparse unstored_csr) [one; one]
                    (Some Logger))).
Proof.
  apply (l2_min_sparse_unstored no_lsq_dense no_lsq_sparse unstored_csr).
  reflexivity.
Defined.
